(** * Appointment store: a shallow embedding of [appointmentService.ts]

    The store is the in-memory mock backend of the booking application: it
    generates the bookable half-hour slots once, admits booking requests,
    lets an admin approve or deny them, keeps date-scoped availability
    rules and serialises the bookings as CSV.

    Conventions of the embedding.
    - JavaScript strings are [string]s (byte sequences); the only characters
      the service inspects are the at sign and the double quote, both plain
      ASCII.
    - Arrays are lists, [Array.prototype.find]/[findIndex] are [list_find],
      [splice(i, 1)] is [delete i], the [Set<string>] of blocked slot ids is
      a [gset string].
    - Every [async] method awaits a timer and then runs to completion; the
      store is driven by one caller at a time, so a method is a function
      from the store to a result and the next store.
    - [Date.now()], [new Date()] and [Math.random()] are read from an
      explicit environment record. [console.log] output is not modelled. *)

From Stdlib Require Import ZArith Lia Ascii String List.
From stdpp Require Import base tactics option list strings pretty gmap sorting.

Local Open Scope string_scope.
Local Open Scope Z_scope.
Local Open Scope list_scope.

(** ** The part of ECMAScript's [Date] the service relies on

    A time value is a number of milliseconds since the epoch, in UTC. The
    host's time zone enters through the abstract operation
    [LocalTZA(t, isUTC)], the offset of local time from UTC in milliseconds
    east of Greenwich: for [isUTC] true, the offset in force at the instant
    [t]; for [isUTC] false, the offset with which the local time [t] is
    read. In a zone with daylight saving the offset changes during the year.
    All time values of the store lie far inside the range that [TimeClip]
    accepts, so [TimeClip] is the identity here. *)
Module JSDate.

Definition msPerDay : Z := 86400000.
Definition msPerHour : Z := 3600000.
Definition msPerMinute : Z := 60000.
Definition msPerSecond : Z := 1000.

Definition Day (t : Z) : Z := t `div` msPerDay.
Definition TimeWithinDay (t : Z) : Z := t `mod` msPerDay.

(** 0 is Sunday, ..., 6 is Saturday; day 0 (1970-01-01) was a Thursday. *)
Definition WeekDay (t : Z) : Z := (Day t + 4) `mod` 7.

(** [LocalTZA] of a zone, as a function of [t] and [isUTC]. *)
Definition TimeZone : Type := Z → bool → Z.

(** A zone whose offset never changes. *)
Definition fixedOffset (offset : Z) : TimeZone := λ _ _, offset.

(** A zone given by its offset [offset] before the first change and its
    changes in ascending order, each the instant of the change and the
    offset in force from then on. A local time that a change skips, or that
    occurs on both sides of a change, is read with the offset in force
    before the change, as the standard prescribes. *)
Fixpoint zoneOf (offset : Z) (changes : list (Z * Z)) (t : Z) (isUTC : bool) : Z :=
  match changes with
  | [] => offset
  | (change, offset') :: changes' =>
    if isUTC then
      if bool_decide (t < change) then offset else zoneOf offset' changes' t true
    else if bool_decide (t - offset < change) then offset
    else if bool_decide (t - offset' < change) then offset
    else zoneOf offset' changes' t false
  end.

Definition LocalTime (tza : TimeZone) (t : Z) : Z := t + tza t true.
Definition UTC (tza : TimeZone) (t : Z) : Z := t - tza t false.

(** Year, month (1..12) and day of the month (1..31) of a day number in
    the proleptic Gregorian calendar, by 400-year eras that start on
    1 March. *)
Definition civil (d : Z) : Z * Z * Z :=
  let z := d + 719468 in
  let era := z `div` 146097 in
  let doe := z - era * 146097 in
  let yoe := (doe - doe `div` 1460 + doe `div` 36524 - doe `div` 146096) `div` 365 in
  let doy := doe - (365 * yoe + yoe `div` 4 - yoe `div` 100) in
  let mp := (5 * doy + 2) `div` 153 in
  let dd := doy - (153 * mp + 2) `div` 5 + 1 in
  let mm := if mp <? 10 then mp + 3 else mp - 9 in
  let yy := yoe + era * 400 + (if mm <=? 2 then 1 else 0) in
  (yy, mm, dd).

Definition YearFromTime (t : Z) : Z := (civil (Day t)).1.1.
Definition MonthFromTime (t : Z) : Z := (civil (Day t)).1.2.
Definition DateFromTime (t : Z) : Z := (civil (Day t)).2.

(** [d.getDay()] and [d.getDate()] read the local calendar. *)
Definition getDay (tza : TimeZone) (t : Z) : Z := WeekDay (LocalTime tza t).
Definition getDate (tza : TimeZone) (t : Z) : Z := DateFromTime (LocalTime tza t).

(** [MakeDay(YearFromTime(t), MonthFromTime(t), n)]: the first of [t]'s
    month is day number [Day t - DateFromTime t + 1], and the operation adds
    [n - 1] to it, rolling over into the neighbouring months when [n] is
    out of the month's range. *)
Definition MakeDayOfMonth (t n : Z) : Z := Day t - DateFromTime t + 1 + (n - 1).

Definition MakeDate (day time : Z) : Z := day * msPerDay + time.

(** [d.setDate(n)] works on the local calendar: it keeps the local year,
    month and time of day, moves the day of the month to [n] and reads the
    resulting local time back as an instant. The result is the new time
    value. *)
Definition setDate (tza : TimeZone) (t n : Z) : Z :=
  let local := LocalTime tza t in
  UTC tza (MakeDate (MakeDayOfMonth local n) (TimeWithinDay local)).

(** [String.prototype.padStart(n, '0')] on a decimal numeral. *)
Fixpoint zeros (n : nat) : string :=
  match n with
  | O => ""
  | S n' => String "0" (zeros n')
  end.

Definition padStart0 (width : nat) (s : string) : string :=
  zeros (width - String.length s) +:+ s.

Definition pad2 (n : Z) : string := padStart0 2 (pretty n).

(** The year of an ISO 8601 timestamp: four digits, or a sign and six
    digits outside 0..9999. *)
Definition isoYear (y : Z) : string :=
  if bool_decide (0 ≤ y ≤ 9999) then padStart0 4 (pretty y)
  else (if bool_decide (y < 0) then "-" else "+") +:+ padStart0 6 (pretty (Z.abs y)).

(** [d.toISOString().split('T')[0]]: the UTC calendar date. *)
Definition isoDate (t : Z) : string :=
  isoYear (YearFromTime t) +:+ "-" +:+ pad2 (MonthFromTime t)
    +:+ "-" +:+ pad2 (DateFromTime t).

(** [d.toISOString()]. *)
Definition toISOString (t : Z) : string :=
  let w := TimeWithinDay t in
  isoDate t +:+ "T" +:+ pad2 (w `div` msPerHour)
    +:+ ":" +:+ pad2 ((w `mod` msPerHour) `div` msPerMinute)
    +:+ ":" +:+ pad2 ((w `mod` msPerMinute) `div` msPerSecond)
    +:+ "." +:+ padStart0 3 (pretty (w `mod` msPerSecond)) +:+ "Z".

End JSDate.

(** ** Data model *)

Inductive BookingStatus := pending | approved | denied.

Global Instance BookingStatus_eq_dec : EqDecision BookingStatus.
Proof. solve_decision. Defined.

Module TimeSlot.
Record t := mk { id : string; date : string; time : string; available : bool }.
End TimeSlot.

Module Booking.
Record t := mk {
  id : string;
  slotId : string;
  name : string;
  email : string;
  reason : string;
  status : BookingStatus;
  date : string;
  time : string;
  createdAt : string
}.

(** [booking.status = s], an assignment to one field of the object. *)
Definition set_status (s : BookingStatus) (b : t) : t :=
  mk (id b) (slotId b) (name b) (email b) (reason b) s (date b) (time b) (createdAt b).
End Booking.

Module AvailabilityRule.
Record t := mk {
  id : string;
  date : string;
  timeSlots : list string;
  isBlocked : bool;
  reason : option string;
  createdAt : string
}.
End AvailabilityRule.

(** The private fields of [class AppointmentService]. *)
Record AppointmentService := mkService {
  bookings : list Booking.t;
  slots : list TimeSlot.t;
  availabilityRules : list AvailabilityRule.t
}.

(** What a method reads from the outside world: the clock ([Date.now()],
    [new Date()]), the zone of the local calendar, and the nine base-36
    digits cut out of [Math.random().toString(36)]. *)
Record Env := mkEnv { now : Z; tza : JSDate.TimeZone; random36 : string }.

(** ** Slot generation *)

Definition getStartOfWeek (e : Env) : Z :=
  let today := now e in
  let day := JSDate.getDay (tza e) today in
  let diff := JSDate.getDate (tza e) today - day + (if bool_decide (day = 0) then -6 else 1) in
  JSDate.setDate (tza e) today diff.

(** [`${hour.toString().padStart(2, '0')}:${minute.toString().padStart(2, '0')}`] *)
Definition slotTime (hour minute : Z) : string :=
  JSDate.pad2 hour +:+ ":" +:+ JSDate.pad2 minute.

(** The three nested loops: [day] over 0..4, [hour] over 9..16 and [minute]
    over 0 and 30, pushing one slot per iteration. *)
Definition generateWeeklySlots (e : Env) : list TimeSlot.t :=
  let startDate := getStartOfWeek e in
  day ← seqZ 0 5;
  let currentDate :=
    JSDate.setDate (tza e) startDate (JSDate.getDate (tza e) startDate + day) in
  hour ← seqZ 9 8;
  minute ← [0; 30];
  let time := slotTime hour minute in
  [ TimeSlot.mk (JSDate.isoDate currentDate +:+ "-" +:+ time)
                (JSDate.isoDate currentDate) time true ].

(** [new AppointmentService()] *)
Definition newService (e : Env) : AppointmentService :=
  mkService [] (generateWeeklySlots e) [].

(** ** Results of the fallible methods

    [{ success: boolean; booking?: Booking; error?: string }] and its two
    siblings. *)
Module BookingResult.
Record t := mk { success : bool; booking : option Booking.t; error : option string }.
Definition fail (msg : string) : t := mk false None (Some msg).
Definition ok (b : Booking.t) : t := mk true (Some b) None.
End BookingResult.

Module RuleResult.
Record t := mk { success : bool; rule : option AvailabilityRule.t; error : option string }.
Definition ok (r : AvailabilityRule.t) : t := mk true (Some r) None.
End RuleResult.

Module DeleteResult.
Record t := mk { success : bool; error : option string }.
Definition fail (msg : string) : t := mk false (Some msg).
Definition ok : t := mk true None.
End DeleteResult.

(** ** Availability query *)

(** [this.bookings.filter(b => b.status !== 'denied').map(b => b.slotId)] *)
Definition bookedSlotIds (bs : list Booking.t) : list string :=
  Booking.slotId <$> filter (λ b, Booking.status b ≠ denied) bs.

(** [`${rule.date}-${time}`] *)
Definition ruleSlotId (date time : string) : string := date +:+ "-" +:+ time.

(** The set filled by the two nested [forEach] loops over the blocking
    rules and their times. *)
Definition blockedSlotIds (rules : list AvailabilityRule.t) : gset string :=
  foldl (λ acc rule,
           foldl (λ acc time, acc ∪ {[ ruleSlotId (AvailabilityRule.date rule) time ]})
                 acc (AvailabilityRule.timeSlots rule))
        ∅ (filter (λ rule, AvailabilityRule.isBlocked rule) rules).

Definition getAvailableSlots (st : AppointmentService)
  : list TimeSlot.t * AppointmentService :=
  let booked := bookedSlotIds (bookings st) in
  let blocked := blockedSlotIds (availabilityRules st) in
  ((λ slot, TimeSlot.mk (TimeSlot.id slot) (TimeSlot.date slot) (TimeSlot.time slot)
              (negb (bool_decide (TimeSlot.id slot ∈ booked))
               && negb (bool_decide (TimeSlot.id slot ∈ blocked))))
     <$> slots st,
   st).

(** ** Booking creation *)

Module BookingData.
Record t := mk { slotId : string; name : string; email : string; reason : string }.
End BookingData.

(** [!s] on a string: only the empty string is falsy. *)
Definition falsy (s : string) : bool := bool_decide (s = "").

(** [s.includes(sub)] *)
Fixpoint includes (s sub : string) : bool :=
  String.prefix sub s
  || match s with
     | EmptyString => false
     | String _ s' => includes s' sub
     end.

Definition bookingId (e : Env) : string :=
  "booking-" +:+ pretty (now e) +:+ "-" +:+ random36 e.

Definition createBooking (e : Env) (data : BookingData.t) (st : AppointmentService)
  : BookingResult.t * AppointmentService :=
  if falsy (BookingData.name data) || falsy (BookingData.email data)
     || falsy (BookingData.reason data)
  then (BookingResult.fail "Missing required information", st)
  else if negb (includes (BookingData.email data) "@")
  then (BookingResult.fail "Invalid email address", st)
  else
    match list_find (λ s, TimeSlot.id s = BookingData.slotId data) (slots st) with
    | None => (BookingResult.fail "Invalid time slot", st)
    | Some (_, slot) =>
      match list_find (λ b, Booking.slotId b = BookingData.slotId data
                            ∧ Booking.status b ≠ denied) (bookings st) with
      | Some _ => (BookingResult.fail "Time slot is already booked", st)
      | None =>
        let booking :=
          Booking.mk (bookingId e) (BookingData.slotId data) (BookingData.name data)
            (BookingData.email data) (BookingData.reason data) pending
            (TimeSlot.date slot) (TimeSlot.time slot) (JSDate.toISOString (now e)) in
        (BookingResult.ok booking,
         mkService (bookings st ++ [booking]) (slots st) (availabilityRules st))
      end
    end.

(** ** Status transition *)

(** The parameter type ['approved' | 'denied']. *)
Inductive Decision := to_approved | to_denied.

Definition Decision_status (d : Decision) : BookingStatus :=
  match d with
  | to_approved => approved
  | to_denied => denied
  end.

Definition updateBookingStatus (bookingId : string) (status : Decision)
    (st : AppointmentService) : BookingResult.t * AppointmentService :=
  match list_find (λ b, Booking.id b = bookingId) (bookings st) with
  | None => (BookingResult.fail "Booking not found", st)
  | Some (i, booking) =>
    let booking' := Booking.set_status (Decision_status status) booking in
    (BookingResult.ok booking',
     mkService (<[i := booking']> (bookings st)) (slots st) (availabilityRules st))
  end.

(** ** Availability rules *)

Module RuleData.
Record t := mk {
  date : string;
  timeSlots : list string;
  isBlocked : bool;
  reason : option string
}.
End RuleData.

Definition ruleId (e : Env) : string :=
  "rule-" +:+ pretty (now e) +:+ "-" +:+ random36 e.

Definition setAvailability (e : Env) (data : RuleData.t) (st : AppointmentService)
  : RuleResult.t * AppointmentService :=
  let kept := filter (λ rule, AvailabilityRule.date rule ≠ RuleData.date data)
                     (availabilityRules st) in
  let rule :=
    AvailabilityRule.mk (ruleId e) (RuleData.date data) (RuleData.timeSlots data)
      (RuleData.isBlocked data) (RuleData.reason data) (JSDate.toISOString (now e)) in
  (RuleResult.ok rule, mkService (bookings st) (slots st) (kept ++ [rule])).

Definition deleteAvailabilityRule (ruleId : string) (st : AppointmentService)
  : DeleteResult.t * AppointmentService :=
  match list_find (λ rule, AvailabilityRule.id rule = ruleId) (availabilityRules st) with
  | None => (DeleteResult.fail "Availability rule not found", st)
  | Some (ruleIndex, _) =>
    (DeleteResult.ok,
     mkService (bookings st) (slots st) (delete ruleIndex (availabilityRules st)))
  end.

(** ** CSV export *)

Definition statusText (s : BookingStatus) : string :=
  match s with
  | pending => "pending"
  | approved => "approved"
  | denied => "denied"
  end.

Definition dquote : string := String "034" EmptyString.

Section CsvExport.
(** [new Date(createdAt).toLocaleString()] depends on the host's locale. *)
Variable toLocaleString : string → string.

Definition csvHeaders : list string :=
  ["ID"; "Name"; "Email"; "Date"; "Time"; "Reason"; "Status"; "Created At"].

Definition csvRow (b : Booking.t) : list string :=
  [Booking.id b; Booking.name b; Booking.email b; Booking.date b; Booking.time b;
   Booking.reason b; statusText (Booking.status b);
   toLocaleString (Booking.createdAt b)].

(** [field => `"${field}"`] *)
Definition csvField (field : string) : string := dquote +:+ field +:+ dquote.

Definition csvLine (row : list string) : string :=
  String.concat "," (csvField <$> row).

Definition exportBookingsCSV (st : AppointmentService) : string * AppointmentService :=
  let rows := csvRow <$> bookings st in
  (String.concat (String "010" EmptyString) (csvLine <$> (csvHeaders :: rows)), st).
End CsvExport.

(** ** Vocabulary of the statements *)

(** Some required field of the request is the empty string. *)
Definition missing (data : BookingData.t) : Prop :=
  BookingData.name data = "" ∨ BookingData.email data = ""
  ∨ BookingData.reason data = "".

(** The requested slot id names a generated slot. *)
Definition slot_known (st : AppointmentService) (slotId : string) : Prop :=
  ∃ slot, slot ∈ slots st ∧ TimeSlot.id slot = slotId.

(** A booking that holds its slot: it references the slot and is not denied. *)
Definition live_on (slotId : string) (b : Booking.t) : Prop :=
  Booking.slotId b = slotId ∧ Booking.status b ≠ denied.

Definition slot_taken (st : AppointmentService) (slotId : string) : Prop :=
  ∃ b, b ∈ bookings st ∧ live_on slotId b.

(** A request that passes the field checks and names a generated slot. *)
Definition valid_request (st : AppointmentService) (data : BookingData.t) : Prop :=
  ¬ missing data ∧ includes (BookingData.email data) "@" = true
  ∧ slot_known st (BookingData.slotId data).

(** ** Booking creation: case analysis *)

Lemma falsy_true s : falsy s = true ↔ s = "".
Proof. unfold falsy. by rewrite bool_decide_eq_true. Qed.

Lemma missing_falsy data :
  falsy (BookingData.name data) || falsy (BookingData.email data)
  || falsy (BookingData.reason data) = true ↔ missing data.
Proof.
  unfold missing. rewrite !orb_true_iff, !falsy_true. tauto.
Qed.

Lemma not_missing_falsy data :
  falsy (BookingData.name data) || falsy (BookingData.email data)
  || falsy (BookingData.reason data) = false ↔ ¬ missing data.
Proof. rewrite <-missing_falsy. by destruct (_ || _). Qed.

Lemma slot_find_None st slotId :
  list_find (λ s, TimeSlot.id s = slotId) (slots st) = None ↔ ¬ slot_known st slotId.
Proof.
  rewrite list_find_None, Forall_forall. unfold slot_known. naive_solver.
Qed.

Lemma slot_find_Some st slotId i slot :
  list_find (λ s, TimeSlot.id s = slotId) (slots st) = Some (i, slot) →
  slot_known st slotId ∧ TimeSlot.id slot = slotId.
Proof.
  intros (Hi & Hid & _)%list_find_Some. split; [|done].
  exists slot. eauto using list_elem_of_lookup_2.
Qed.

Lemma live_find_None st slotId :
  list_find (live_on slotId) (bookings st) = None ↔ ¬ slot_taken st slotId.
Proof.
  rewrite list_find_None, Forall_forall. unfold slot_taken. naive_solver.
Qed.

Lemma live_find_Some st slotId i b :
  list_find (live_on slotId) (bookings st) = Some (i, b) → slot_taken st slotId.
Proof.
  intros (Hi & Hlive & _)%list_find_Some.
  exists b. eauto using list_elem_of_lookup_2.
Qed.

(** The five ways out of [createBooking], in the order of the code. *)
Inductive createBooking_outcome (e : Env) (data : BookingData.t)
    (st : AppointmentService) : BookingResult.t * AppointmentService → Prop :=
  | cb_missing :
      missing data →
      createBooking_outcome e data st
        (BookingResult.fail "Missing required information", st)
  | cb_email :
      ¬ missing data → includes (BookingData.email data) "@" = false →
      createBooking_outcome e data st (BookingResult.fail "Invalid email address", st)
  | cb_slot :
      ¬ missing data → includes (BookingData.email data) "@" = true →
      ¬ slot_known st (BookingData.slotId data) →
      createBooking_outcome e data st (BookingResult.fail "Invalid time slot", st)
  | cb_conflict :
      valid_request st data → slot_taken st (BookingData.slotId data) →
      createBooking_outcome e data st
        (BookingResult.fail "Time slot is already booked", st)
  | cb_created b :
      valid_request st data → ¬ slot_taken st (BookingData.slotId data) →
      Booking.id b = bookingId e → Booking.slotId b = BookingData.slotId data →
      Booking.status b = pending →
      createBooking_outcome e data st
        (BookingResult.ok b,
         mkService (bookings st ++ [b]) (slots st) (availabilityRules st)).

Lemma createBooking_outcome_intro e data st :
  createBooking_outcome e data st (createBooking e data st).
Proof.
  unfold createBooking.
  destruct (_ || _) eqn:Hm.
  { apply cb_missing. by apply missing_falsy. }
  apply not_missing_falsy in Hm.
  destruct (includes _ _) eqn:Hat; simpl.
  2:{ by apply cb_email. }
  destruct (list_find _ (slots st)) as [[i slot]|] eqn:Hslot.
  2:{ apply cb_slot; [done..|]. by apply slot_find_None. }
  apply slot_find_Some in Hslot as [Hknown _].
  fold (live_on (BookingData.slotId data)).
  destruct (list_find _ (bookings st)) as [[j b]|] eqn:Hlive.
  - apply cb_conflict; [done|]. by eapply live_find_Some.
  - apply live_find_None in Hlive. by apply cb_created.
Qed.

Ltac createBooking_cases e data st :=
  destruct (createBooking_outcome_intro e data st)
    as [Hmiss | Hmiss Hat | Hmiss Hat Hslot | Hvalid Htaken
        | b Hvalid Hfree Hbid Hbslot Hbstatus].

(** ** Booking creation: failure leaves the store alone *)

(** C9. [createBooking] is atomic on failure: whenever it reports an error
    (missing field, invalid email, unknown slot or conflict) the bookings,
    the slots and the availability rules are exactly what they were; a
    booking is appended, at the end and with nothing else touched, only when
    the call succeeds; and a call either succeeds or reports an error. *)
Theorem createBooking_atomic_on_failure e data st :
  let r := (createBooking e data st).1 in
  let st' := (createBooking e data st).2 in
  (is_Some (BookingResult.error r) → st' = st)
  ∧ (bookings st' ≠ bookings st → BookingResult.success r = true)
  ∧ (BookingResult.success r = true →
     ∃ b, BookingResult.booking r = Some b
          ∧ bookings st' = bookings st ++ [b]
          ∧ slots st' = slots st
          ∧ availabilityRules st' = availabilityRules st)
  ∧ (BookingResult.success r = false ↔ is_Some (BookingResult.error r)).
Proof.
  createBooking_cases e data st; simpl; split_and!;
    try done; try (intros [? [=]]); try (intros [=]); eauto.
Qed.

Definition sampleEnv : Env := mkEnv 1704067200000 (JSDate.fixedOffset 0) "k3x9q2m1z".

Definition sampleStore : AppointmentService := newService sampleEnv.

Lemma createBooking_atomic_on_failure_witness :
  (createBooking sampleEnv
     (BookingData.mk "2024-01-01-09:00" "Ann" "ann.example.org" "checkup")
     sampleStore).2 = sampleStore.
Proof.
  refine (proj1 (createBooking_atomic_on_failure sampleEnv
                   (BookingData.mk "2024-01-01-09:00" "Ann" "ann.example.org" "checkup")
                   sampleStore) _).
  vm_compute. eauto.
Defined.

(** ** Booking creation: the order of the checks *)

(** The six rules of the specification's validation order. *)
Inductive Rejection :=
  | name_required
  | email_required
  | invalid_email_format
  | reason_required
  | slot_not_found
  | slot_conflict.

Definition is_space (c : ascii) : bool :=
  bool_decide (c ∈ ["032"; "009"; "010"; "011"; "012"; "013"]%char).

(** A missing or blank field: nothing but white space. *)
Fixpoint blank (s : string) : bool :=
  match s with
  | EmptyString => true
  | String c s' => is_space c && blank s'
  end.

(** The validation order in the specification's words: blank name, then
    blank email, then an email without an at sign, then blank reason, then
    an unknown slot id, then a slot conflict; the first failing rule wins. *)
Definition spec_first_failing_rule (st : AppointmentService) (data : BookingData.t)
  : option Rejection :=
  if blank (BookingData.name data) then Some name_required
  else if blank (BookingData.email data) then Some email_required
  else if negb (includes (BookingData.email data) "@") then Some invalid_email_format
  else if blank (BookingData.reason data) then Some reason_required
  else if bool_decide (Forall (λ s, TimeSlot.id s ≠ BookingData.slotId data) (slots st))
  then Some slot_not_found
  else if bool_decide (Exists (live_on (BookingData.slotId data)) (bookings st))
  then Some slot_conflict
  else None.

(** The claim of a first-failing-rule order, whatever text each rule's error
    carries: the error of [createBooking] is the message of the first rule
    of the specification's order that fails, and the name rule has an error
    of its own. *)
Definition reports_first_failing_rule (message : Rejection → string) : Prop :=
  message name_required ≠ message email_required
  ∧ ∀ e data st,
      BookingResult.error (createBooking e data st).1
      = message <$> spec_first_failing_rule st data.

(** C3, as stated, fails. A request with a name, an email without an at sign
    and an empty reason is rejected for the missing reason, while the same
    request with a reason is rejected for the email: no assignment of
    messages to the six rules makes the code report the first failing rule
    of the specification's order. And an empty name with an empty email
    gets the very message that an empty reason alone gets. *)
Lemma createBooking_first_failing_rule_counterexample :
  (¬ ∃ message, reports_first_failing_rule message)
  ∧ BookingResult.error
      (createBooking sampleEnv
         (BookingData.mk "2024-01-01-09:00" "" "" "checkup") sampleStore).1
    = BookingResult.error
        (createBooking sampleEnv
           (BookingData.mk "2024-01-01-09:00" "Ann" "ann@example.org" "") sampleStore).1.
Proof.
  split; [|reflexivity].
  intros [message [_ Hall]].
  pose proof (Hall sampleEnv
    (BookingData.mk "2024-01-01-09:00" "Ann" "ann" "") sampleStore) as H1.
  pose proof (Hall sampleEnv
    (BookingData.mk "2024-01-01-09:00" "Ann" "ann" "checkup") sampleStore) as H2.
  vm_compute in H1, H2. congruence.
Qed.

(** C3, amended. [createBooking] checks fail-fast in this order: any of
    name, email and reason empty gives the one error "Missing required
    information"; then an email without an at sign gives "Invalid email
    address"; then an unknown slot id gives "Invalid time slot"; then a live
    booking on the slot gives "Time slot is already booked"; otherwise the
    call succeeds. In particular an empty name with an empty email gives
    "Missing required information", and the outcome of the checks does not
    depend on the clock or the random source. *)
Theorem createBooking_validation_order e data st :
  let r := (createBooking e data st).1 in
  (missing data →
   BookingResult.error r = Some "Missing required information")
  ∧ (BookingData.name data = "" → BookingData.email data = "" →
     BookingResult.error r = Some "Missing required information")
  ∧ (¬ missing data → includes (BookingData.email data) "@" = false →
     BookingResult.error r = Some "Invalid email address")
  ∧ (¬ missing data → includes (BookingData.email data) "@" = true →
     ¬ slot_known st (BookingData.slotId data) →
     BookingResult.error r = Some "Invalid time slot")
  ∧ (valid_request st data → slot_taken st (BookingData.slotId data) →
     BookingResult.error r = Some "Time slot is already booked")
  ∧ (valid_request st data → ¬ slot_taken st (BookingData.slotId data) →
     BookingResult.error r = None ∧ BookingResult.success r = true)
  ∧ (∀ e', BookingResult.error (createBooking e' data st).1 = BookingResult.error r
           ∧ BookingResult.success (createBooking e' data st).1
             = BookingResult.success r).
Proof.
  assert (∀ e', BookingResult.error (createBooking e' data st).1
                = BookingResult.error (createBooking e data st).1
                ∧ BookingResult.success (createBooking e' data st).1
                  = BookingResult.success (createBooking e data st).1) as Hdet.
  { intros e'. unfold createBooking.
    repeat (case_match; simpl; try done). }
  unfold valid_request.
  createBooking_cases e data st; simpl; split_and!; try done;
    unfold valid_request, missing in *; try naive_solver congruence.
Qed.

Lemma createBooking_validation_order_witness :
  BookingResult.error
    (createBooking sampleEnv
       (BookingData.mk "2024-01-01-09:00" "" "" "checkup") sampleStore).1
  = Some "Missing required information".
Proof.
  exact (proj1 (createBooking_validation_order sampleEnv
                  (BookingData.mk "2024-01-01-09:00" "" "" "checkup") sampleStore)
               (or_introl eq_refl)).
Defined.

(** ** Booking creation: conflicts *)

Lemma createBooking_created e data st :
  valid_request st data → ¬ slot_taken st (BookingData.slotId data) →
  ∃ b, createBooking e data st
       = (BookingResult.ok b,
          mkService (bookings st ++ [b]) (slots st) (availabilityRules st))
       ∧ Booking.id b = bookingId e
       ∧ Booking.slotId b = BookingData.slotId data
       ∧ Booking.status b = pending.
Proof.
  intros (Hm' & Hat' & Hk') Hfree'.
  createBooking_cases e data st; try done; try congruence. eauto.
Qed.

Lemma createBooking_rejected_conflict e data st :
  valid_request st data → slot_taken st (BookingData.slotId data) →
  createBooking e data st = (BookingResult.fail "Time slot is already booked", st).
Proof.
  intros (Hm' & Hat' & Hk') Hbusy.
  createBooking_cases e data st; try done; congruence.
Qed.

Lemma createBooking_conflict_taken e data st :
  BookingResult.error (createBooking e data st).1 = Some "Time slot is already booked" →
  slot_taken st (BookingData.slotId data).
Proof. createBooking_cases e data st; simpl; by intros [=]. Qed.

Lemma slot_taken_app st b :
  slot_taken (mkService (bookings st ++ [b]) (slots st) (availabilityRules st))
             (Booking.slotId b)
  ↔ slot_taken st (Booking.slotId b) ∨ Booking.status b ≠ denied.
Proof.
  unfold slot_taken, live_on; simpl. setoid_rewrite elem_of_app.
  setoid_rewrite list_elem_of_singleton. naive_solver.
Qed.

Lemma valid_request_slots st st' data :
  slots st' = slots st → valid_request st data → valid_request st' data.
Proof. unfold valid_request, slot_known. by intros ->. Qed.

(** ** Status transition *)

(** [bs.find(b => b.id === bookingId)] returns the booking at [i]: the first
    one, in collection order, that carries the id. *)
Definition first_with_id (bs : list Booking.t) (bookingId : string)
    (i : nat) (b : Booking.t) : Prop :=
  bs !! i = Some b ∧ Booking.id b = bookingId
  ∧ ∀ j b', bs !! j = Some b' → (j < i)%nat → Booking.id b' ≠ bookingId.

Lemma first_with_id_find bs bookingId i b :
  list_find (λ b, Booking.id b = bookingId) bs = Some (i, b)
  ↔ first_with_id bs bookingId i b.
Proof. apply (list_find_Some (λ b, Booking.id b = bookingId)). Qed.

Lemma first_with_id_exists bs bookingId b :
  b ∈ bs → Booking.id b = bookingId → ∃ i b', first_with_id bs bookingId i b'.
Proof.
  intros Hin Hid.
  destruct (list_find_elem_of (λ b, Booking.id b = bookingId) bs b Hin Hid)
    as [[i b'] Hfind].
  exists i, b'. by apply first_with_id_find.
Qed.

Lemma updateBookingStatus_found bookingId status st i b :
  first_with_id (bookings st) bookingId i b →
  updateBookingStatus bookingId status st
  = (BookingResult.ok (Booking.set_status (Decision_status status) b),
     mkService (<[i := Booking.set_status (Decision_status status) b]> (bookings st))
               (slots st) (availabilityRules st)).
Proof.
  intros Hfirst%first_with_id_find. unfold updateBookingStatus. by rewrite Hfirst.
Qed.

Lemma updateBookingStatus_not_found bookingId status st :
  (∀ b, b ∈ bookings st → Booking.id b ≠ bookingId) →
  updateBookingStatus bookingId status st = (BookingResult.fail "Booking not found", st).
Proof.
  intros Hnone. unfold updateBookingStatus.
  destruct (list_find _ _) as [[i b]|] eqn:Hfind; [|done].
  apply first_with_id_find in Hfind as (Hi & Hid & _).
  destruct (Hnone b); eauto using list_elem_of_lookup_2.
Qed.

(** The updated booking is again the first one with its id. *)
Lemma first_with_id_insert bs bookingId i b s :
  first_with_id bs bookingId i b →
  first_with_id (<[i := Booking.set_status s b]> bs) bookingId i (Booking.set_status s b).
Proof.
  intros (Hi & Hid & Hfirst). split_and!.
  - apply list_lookup_insert_eq. eauto using lookup_lt_Some.
  - done.
  - intros j b' Hj Hlt. rewrite list_lookup_insert_ne in Hj by lia. eauto.
Qed.

(** C8. [updateBookingStatus] answers "Booking not found" exactly when no
    booking carries the id, and then changes nothing. Otherwise it succeeds
    and overwrites the status of the booking it finds with the target
    status, approved for the target 'approved' and denied for the target
    'denied', whatever the status was, touching nothing else: no other
    booking, no slot, no rule. A decided booking can be decided again
    either way. Approving the same booking twice in a row succeeds both
    times and leaves it approved. *)
Theorem updateBookingStatus_overwrites bookingId status st :
  let r := (updateBookingStatus bookingId status st).1 in
  let st' := (updateBookingStatus bookingId status st).2 in
  let target :=
    match status with
    | to_approved => approved
    | to_denied => denied
    end in
  (BookingResult.error r = Some "Booking not found"
   ↔ ∀ b, b ∈ bookings st → Booking.id b ≠ bookingId)
  ∧ (BookingResult.success r = false
     ↔ ∀ b, b ∈ bookings st → Booking.id b ≠ bookingId)
  ∧ (BookingResult.success r = false → st' = st)
  ∧ (∀ i b, first_with_id (bookings st) bookingId i b →
       BookingResult.success r = true
       ∧ BookingResult.error r = None
       ∧ BookingResult.booking r = Some (Booking.set_status target b)
       ∧ bookings st' = <[i := Booking.set_status target b]> (bookings st)
       ∧ Booking.status <$> bookings st' !! i = Some target
       ∧ (∀ j, j ≠ i → bookings st' !! j = bookings st !! j)
       ∧ slots st' = slots st
       ∧ availabilityRules st' = availabilityRules st)
  ∧ (∀ b, b ∈ bookings st → Booking.id b = bookingId →
       let once := updateBookingStatus bookingId to_approved st in
       let twice := updateBookingStatus bookingId to_approved once.2 in
       BookingResult.success once.1 = true
       ∧ Booking.status <$> BookingResult.booking once.1 = Some approved
       ∧ BookingResult.success twice.1 = true
       ∧ BookingResult.error twice.1 = None
       ∧ Booking.status <$> BookingResult.booking twice.1 = Some approved
       ∧ twice.2 = once.2)
  ∧ (∀ i b, first_with_id (bookings st) bookingId i b →
       let approve := updateBookingStatus bookingId to_approved in
       let deny := updateBookingStatus bookingId to_denied in
       Booking.status <$> bookings (approve st).2 !! i = Some approved
       ∧ Booking.status <$> bookings (deny st).2 !! i = Some denied
       ∧ Booking.status <$> BookingResult.booking (deny st).1 = Some denied
       ∧ BookingResult.success (deny (approve st).2).1 = true
       ∧ Booking.status <$> bookings (deny (approve st).2).2 !! i = Some denied
       ∧ BookingResult.success (approve (deny st).2).1 = true
       ∧ Booking.status <$> bookings (approve (deny st).2).2 !! i = Some approved).
Proof.
  assert (∀ i b, first_with_id (bookings st) bookingId i b →
                 ¬ ∀ b, b ∈ bookings st → Booking.id b ≠ bookingId) as Hex.
  { intros i b (Hi & Hid & _) Hnone.
    destruct (Hnone b); eauto using list_elem_of_lookup_2. }
  assert (∀ s, Decision_status s
               = match s with to_approved => approved | to_denied => denied end)
    as Htarget by (by intros []).
  cbv zeta. rewrite <-Htarget. split_and!.
  - destruct (list_find (λ b, Booking.id b = bookingId) (bookings st))
      as [[i b]|] eqn:Hfind.
    + apply first_with_id_find in Hfind.
      rewrite (updateBookingStatus_found _ _ _ _ _ Hfind); simpl.
      split; [done|]. intros Hnone. by destruct (Hex i b).
    + apply list_find_None in Hfind. rewrite Forall_forall in Hfind.
      by rewrite updateBookingStatus_not_found.
  - destruct (list_find (λ b, Booking.id b = bookingId) (bookings st))
      as [[i b]|] eqn:Hfind.
    + apply first_with_id_find in Hfind.
      rewrite (updateBookingStatus_found _ _ _ _ _ Hfind); simpl.
      split; [done|]. intros Hnone. by destruct (Hex i b).
    + apply list_find_None in Hfind. rewrite Forall_forall in Hfind.
      by rewrite updateBookingStatus_not_found.
  - unfold updateBookingStatus. by destruct (list_find _ _) as [[i b]|].
  - intros i b Hfirst. rewrite (updateBookingStatus_found _ _ _ _ _ Hfirst); simpl.
    split_and!; try done.
    + rewrite list_lookup_insert_eq; [done|].
      destruct Hfirst as (Hi & _). eauto using lookup_lt_Some.
    + intros j Hj. by rewrite list_lookup_insert_ne.
  - intros b Hin Hid.
    destruct (first_with_id_exists _ _ _ Hin Hid) as (i & b' & Hfirst).
    rewrite (updateBookingStatus_found _ to_approved _ _ _ Hfirst); simpl.
    pose proof (first_with_id_insert _ _ _ _ approved Hfirst) as Hagain.
    rewrite (updateBookingStatus_found _ to_approved
               (mkService _ (slots st) (availabilityRules st)) _ _ Hagain); simpl.
    split_and!; try done.
    by rewrite list_insert_insert_eq.
  - intros i b Hfirst.
    assert (i < length (bookings st))%nat as Hlt.
    { destruct Hfirst as (Hi & _). eauto using lookup_lt_Some. }
    pose proof (first_with_id_insert _ _ _ _ approved Hfirst) as Happroved.
    pose proof (first_with_id_insert _ _ _ _ denied Hfirst) as Hdenied.
    rewrite (updateBookingStatus_found _ to_approved _ _ _ Hfirst).
    rewrite (updateBookingStatus_found _ to_denied _ _ _ Hfirst).
    cbn [fst snd bookings Decision_status].
    rewrite (updateBookingStatus_found _ to_denied
               (mkService _ (slots st) (availabilityRules st)) _ _ Happroved).
    rewrite (updateBookingStatus_found _ to_approved
               (mkService _ (slots st) (availabilityRules st)) _ _ Hdenied).
    cbn [fst snd bookings Decision_status].
    rewrite !list_lookup_insert_eq by (rewrite ?length_insert; lia).
    by split_and!.
Qed.

Definition sampleRequest : BookingData.t :=
  BookingData.mk "2024-01-01-09:00" "Ann" "ann@example.org" "checkup".

(** The sample store after one accepted booking. *)
Definition bookedStore : AppointmentService :=
  (createBooking sampleEnv sampleRequest sampleStore).2.

Lemma updateBookingStatus_overwrites_witness :
  Booking.status
    <$> bookings
          (updateBookingStatus "booking-1704067200000-k3x9q2m1z" to_denied
             (updateBookingStatus "booking-1704067200000-k3x9q2m1z" to_approved
                bookedStore).2).2 !! 0%nat
  = Some denied.
Proof.
  refine (proj1 (proj2 (proj2 (proj2 (proj2
    (proj2 (proj2 (proj2 (proj2 (proj2
       (updateBookingStatus_overwrites "booking-1704067200000-k3x9q2m1z"
          to_denied bookedStore)))))
       0%nat
       (Booking.mk "booking-1704067200000-k3x9q2m1z" "2024-01-01-09:00" "Ann"
          "ann@example.org" "checkup" pending "2024-01-01" "09:00"
          "2024-01-01T00:00:00.000Z") _)))))).
  split_and!.
  - reflexivity.
  - reflexivity.
  - intros j b' _ Hj. lia.
Defined.

(** Denying the booking just created frees its slot, provided the id it was
    given was new. *)
Lemma deny_created_frees_slot e data st b :
  ¬ slot_taken st (BookingData.slotId data) →
  (∀ b', b' ∈ bookings st → Booking.id b' ≠ bookingId e) →
  Booking.id b = bookingId e → Booking.slotId b = BookingData.slotId data →
  let st1 := mkService (bookings st ++ [b]) (slots st) (availabilityRules st) in
  let st2 := (updateBookingStatus (bookingId e) to_denied st1).2 in
  slots st2 = slots st ∧ ¬ slot_taken st2 (BookingData.slotId data).
Proof.
  intros Hfree Hfresh Hid Hslot st1 st2.
  assert (first_with_id (bookings st1) (bookingId e) (length (bookings st)) b) as Hfirst.
  { split_and!; [|done|].
    - simpl. by rewrite lookup_app_r, Nat.sub_diag by lia.
    - intros j b' Hj Hlt. simpl in Hj. rewrite lookup_app_l in Hj by done.
      eauto using list_elem_of_lookup_2. }
  subst st2. rewrite (updateBookingStatus_found _ to_denied _ _ _ Hfirst); simpl.
  split; [done|].
  replace (length (bookings st)) with (length (bookings st) + 0)%nat by lia.
  rewrite insert_app_r; simpl.
  intros (b' & [Hin | ->%list_elem_of_singleton]%elem_of_app & Hlive).
  - apply Hfree. by exists b'.
  - by destruct Hlive as [_ []].
Qed.

(** C4. A conflict is reported only when a booking that is not denied
    references the requested slot, and for a request that passes the earlier
    checks exactly then; such a request succeeds exactly when the slot is
    free. Two such requests for one free slot, one after the other: the
    first succeeds, the second is a conflict and changes nothing. And once
    the booking made on a free slot is denied, the next request for that
    slot succeeds. *)
Theorem createBooking_conflict_exactly_when_taken e data st :
  let r := (createBooking e data st).1 in
  let st1 := (createBooking e data st).2 in
  (BookingResult.error r = Some "Time slot is already booked" →
   slot_taken st (BookingData.slotId data))
  ∧ (valid_request st data →
     (BookingResult.error r = Some "Time slot is already booked"
      ↔ slot_taken st (BookingData.slotId data))
     ∧ (BookingResult.success r = true ↔ ¬ slot_taken st (BookingData.slotId data)))
  ∧ (∀ e' data',
       valid_request st data → valid_request st data' →
       BookingData.slotId data' = BookingData.slotId data →
       ¬ slot_taken st (BookingData.slotId data) →
       BookingResult.success r = true
       ∧ BookingResult.success (createBooking e' data' st1).1 = false
       ∧ BookingResult.error (createBooking e' data' st1).1
         = Some "Time slot is already booked"
       ∧ (createBooking e' data' st1).2 = st1)
  ∧ (∀ e' data',
       valid_request st data → valid_request st data' →
       BookingData.slotId data' = BookingData.slotId data →
       ¬ slot_taken st (BookingData.slotId data) →
       (∀ b, b ∈ bookings st → Booking.id b ≠ bookingId e) →
       let st2 := (updateBookingStatus (bookingId e) to_denied st1).2 in
       BookingResult.success (createBooking e' data' st2).1 = true
       ∧ BookingResult.error (createBooking e' data' st2).1 = None).
Proof.
  split_and!.
  - apply createBooking_conflict_taken.
  - intros Hvalid.
    destruct (list_find (live_on (BookingData.slotId data)) (bookings st))
      as [[i b]|] eqn:Hfind;
      [apply live_find_Some in Hfind as Hbusy | apply live_find_None in Hfind as Hfree].
    + rewrite (createBooking_rejected_conflict _ _ _ Hvalid Hbusy); simpl.
      split; split; try done.
    + destruct (createBooking_created e _ _ Hvalid Hfree) as (b & -> & _); simpl.
      split; split; try done.
  - intros e' data' Hvalid Hvalid' Hsame Hfree.
    destruct (createBooking_created e _ _ Hvalid Hfree)
      as (b & -> & Hid & Hslot & Hstatus); simpl.
    rewrite createBooking_rejected_conflict; [done|..].
    + by eapply valid_request_slots.
    + rewrite Hsame, <-Hslot. apply slot_taken_app. right. by rewrite Hstatus.
  - intros e' data' Hvalid Hvalid' Hsame Hfree Hfresh.
    destruct (createBooking_created e _ _ Hvalid Hfree)
      as (b & -> & Hid & Hslot & Hstatus); simpl.
    destruct (deny_created_frees_slot e data st b Hfree Hfresh Hid Hslot)
      as [Hslots Hfree2].
    destruct (createBooking_created e' data' _
                (valid_request_slots _ _ _ Hslots Hvalid')) as (b' & -> & _).
    + by rewrite Hsame.
    + done.
Qed.

Definition laterEnv : Env := mkEnv 1704070800000 (JSDate.fixedOffset 0) "p0o9i8u7y".

Definition secondRequest : BookingData.t :=
  BookingData.mk "2024-01-01-09:00" "Bob" "bob@example.org" "follow-up".

Lemma createBooking_conflict_exactly_when_taken_witness :
  BookingResult.success
    (createBooking laterEnv secondRequest
       (updateBookingStatus (bookingId sampleEnv) to_denied bookedStore).2).1 = true.
Proof.
  refine (proj1 (proj2 (proj2 (proj2
    (createBooking_conflict_exactly_when_taken sampleEnv sampleRequest sampleStore)))
    laterEnv secondRequest _ _ _ _ _)).
  - split_and!; [vm_compute; intuition discriminate | reflexivity |].
    eexists. split; [apply list_elem_of_here | reflexivity].
  - split_and!; [vm_compute; intuition discriminate | reflexivity |].
    eexists. split; [apply list_elem_of_here | reflexivity].
  - reflexivity.
  - intros (b & Hin & _). vm_compute in Hin. by apply elem_of_nil in Hin.
  - intros b Hin. vm_compute in Hin. by apply elem_of_nil in Hin.
Defined.

(** ** Availability query *)

Lemma elem_of_bookedSlotIds bs slotId :
  slotId ∈ bookedSlotIds bs ↔ ∃ b, b ∈ bs ∧ live_on slotId b.
Proof.
  unfold bookedSlotIds, live_on. rewrite list_elem_of_fmap.
  setoid_rewrite list_elem_of_filter. naive_solver.
Qed.

Lemma elem_of_rule_times (date : string) (times : list string) (acc : gset string) x :
  x ∈ foldl (λ acc time, acc ∪ {[ ruleSlotId date time ]}) acc times
  ↔ x ∈ acc ∨ ∃ time, time ∈ times ∧ x = ruleSlotId date time.
Proof.
  revert acc. induction times as [|t times IH]; intros acc; simpl.
  - setoid_rewrite elem_of_nil. naive_solver.
  - rewrite IH. setoid_rewrite elem_of_cons. set_solver.
Qed.

(** A blocking rule names the slot id: one of its times, appended to its
    date, spells the id. *)
Definition rule_blocks (slotId : string) (rule : AvailabilityRule.t) : Prop :=
  AvailabilityRule.isBlocked rule
  ∧ ∃ time, time ∈ AvailabilityRule.timeSlots rule
            ∧ slotId = ruleSlotId (AvailabilityRule.date rule) time.

Lemma elem_of_rules_fold (rules : list AvailabilityRule.t) (acc : gset string) x :
  x ∈ foldl (λ acc rule,
               foldl (λ acc time, acc ∪ {[ ruleSlotId (AvailabilityRule.date rule) time ]})
                     acc (AvailabilityRule.timeSlots rule)) acc rules
  ↔ x ∈ acc ∨ ∃ rule time, rule ∈ rules ∧ time ∈ AvailabilityRule.timeSlots rule
                           ∧ x = ruleSlotId (AvailabilityRule.date rule) time.
Proof.
  revert acc. induction rules as [|r rules IH]; intros acc; simpl.
  - setoid_rewrite elem_of_nil. naive_solver.
  - rewrite IH, elem_of_rule_times. setoid_rewrite elem_of_cons. naive_solver.
Qed.

Lemma elem_of_blockedSlotIds rules slotId :
  slotId ∈ blockedSlotIds rules ↔ ∃ rule, rule ∈ rules ∧ rule_blocks slotId rule.
Proof.
  unfold blockedSlotIds, rule_blocks. rewrite elem_of_rules_fold.
  setoid_rewrite list_elem_of_filter. set_solver.
Qed.

Definition slot_blocked (st : AppointmentService) (slotId : string) : Prop :=
  ∃ rule, rule ∈ availabilityRules st ∧ rule_blocks slotId rule.

(** The flag the query reports for the slot at position [i]. *)
Definition flag_at (st : AppointmentService) (i : nat) : option bool :=
  TimeSlot.available <$> (getAvailableSlots st).1 !! i.

Lemma getAvailableSlots_lookup st i slot :
  slots st !! i = Some slot →
  ∃ flag, (getAvailableSlots st).1 !! i
          = Some (TimeSlot.mk (TimeSlot.id slot) (TimeSlot.date slot)
                              (TimeSlot.time slot) flag)
          ∧ (flag = false ↔ slot_taken st (TimeSlot.id slot)
                            ∨ slot_blocked st (TimeSlot.id slot)).
Proof.
  intros Hi. eexists. split.
  - unfold getAvailableSlots; simpl. by rewrite list_lookup_fmap, Hi.
  - rewrite andb_false_iff, !negb_false_iff, !bool_decide_eq_true.
    by rewrite elem_of_bookedSlotIds, elem_of_blockedSlotIds.
Qed.

Lemma flag_at_false st i slot :
  slots st !! i = Some slot →
  flag_at st i = Some false
  ↔ slot_taken st (TimeSlot.id slot) ∨ slot_blocked st (TimeSlot.id slot).
Proof.
  intros Hi. destruct (getAvailableSlots_lookup st i slot Hi) as (flag & Hl & Hflag).
  unfold flag_at. rewrite Hl; simpl. rewrite <-Hflag. naive_solver.
Qed.

Lemma flag_at_true st i slot :
  slots st !! i = Some slot →
  flag_at st i = Some true
  ↔ ¬ slot_taken st (TimeSlot.id slot) ∧ ¬ slot_blocked st (TimeSlot.id slot).
Proof.
  intros Hi. destruct (getAvailableSlots_lookup st i slot Hi) as (flag & Hl & Hflag).
  unfold flag_at. rewrite Hl; simpl. destruct flag; naive_solver.
Qed.

(** The flags depend on the rules only through the ids they block. *)
Lemma getAvailableSlots_same_blocked bs sl rules rules' :
  blockedSlotIds rules = blockedSlotIds rules' →
  (getAvailableSlots (mkService bs sl rules)).1
  = (getAvailableSlots (mkService bs sl rules')).1.
Proof. unfold getAvailableSlots; simpl. by intros ->. Qed.

Lemma blockedSlotIds_ext rules rules' :
  (∀ x, (∃ r, r ∈ rules ∧ rule_blocks x r) ↔ (∃ r, r ∈ rules' ∧ rule_blocks x r)) →
  blockedSlotIds rules = blockedSlotIds rules'.
Proof.
  intros H. apply set_eq. intros x. by rewrite !elem_of_blockedSlotIds.
Qed.

(** ** Slot ids *)

Lemma ruleSlotId_inj d1 t1 d2 t2 :
  String.length d1 = String.length d2 →
  ruleSlotId d1 t1 = ruleSlotId d2 t2 → d1 = d2 ∧ t1 = t2.
Proof.
  unfold ruleSlotId. revert d2.
  induction d1 as [|c d1 IH]; intros [|c' d2]; simpl; try done.
  - intros _ Heq. by simplify_eq/=.
  - intros [= Hlen] Heq. simplify_eq/=.
    destruct (IH d2 Hlen) as [-> ->]; done.
Qed.

Lemma pushed_slot_shape date time :
  let slot := TimeSlot.mk (date +:+ "-" +:+ time) date time true in
  TimeSlot.id slot = ruleSlotId (TimeSlot.date slot) (TimeSlot.time slot)
  ∧ TimeSlot.available slot = true.
Proof. done. Qed.

Lemma generateWeeklySlots_shape e slot :
  slot ∈ generateWeeklySlots e →
  TimeSlot.id slot = ruleSlotId (TimeSlot.date slot) (TimeSlot.time slot)
  ∧ TimeSlot.available slot = true.
Proof.
  unfold generateWeeklySlots.
  intros (day & Hslot & _)%list_elem_of_bind.
  apply list_elem_of_bind in Hslot as (hour & Hslot & _).
  apply list_elem_of_bind in Hslot as (minute & Hslot & _).
  apply list_elem_of_singleton in Hslot. rewrite Hslot.
  apply pushed_slot_shape.
Qed.

(** ** Reachable stores *)

(** The public methods. The two sorted listings, [getAllBookings] and
    [getAvailabilityRules], sort a copy of the array and leave the store as
    it is; so do the slot query and the export. *)
Inductive Call :=
  | call_getAvailableSlots
  | call_createBooking (e : Env) (data : BookingData.t)
  | call_getAllBookings
  | call_updateBookingStatus (bookingId : string) (status : Decision)
  | call_exportBookingsCSV
  | call_setAvailability (e : Env) (data : RuleData.t)
  | call_getAvailabilityRules
  | call_deleteAvailabilityRule (ruleId : string).

(** The store after a call. *)
Definition step (c : Call) (st : AppointmentService) : AppointmentService :=
  match c with
  | call_getAvailableSlots => (getAvailableSlots st).2
  | call_createBooking e data => (createBooking e data st).2
  | call_getAllBookings => st
  | call_updateBookingStatus bookingId status =>
      (updateBookingStatus bookingId status st).2
  | call_exportBookingsCSV => (exportBookingsCSV (λ s, s) st).2
  | call_setAvailability e data => (setAvailability e data st).2
  | call_getAvailabilityRules => st
  | call_deleteAvailabilityRule ruleId => (deleteAvailabilityRule ruleId st).2
  end.

(** The store after a sequence of calls, first call first. *)
Definition run (calls : list Call) (st : AppointmentService) : AppointmentService :=
  foldl (λ st c, step c st) st calls.

Inductive reachable : AppointmentService → Prop :=
  | reachable_new e : reachable (newService e)
  | reachable_step c st : reachable st → reachable (step c st).

Lemma step_slots c st : slots (step c st) = slots st.
Proof.
  destruct c; simpl; try done.
  - by createBooking_cases e data st.
  - unfold updateBookingStatus. by destruct (list_find _ _) as [[??]|].
  - unfold deleteAvailabilityRule. by destruct (list_find _ _) as [[??]|].
Qed.

Lemma reachable_run calls st : reachable st → reachable (run calls st).
Proof.
  revert st. induction calls as [|c calls IH]; intros st Hst; simpl; [done|].
  apply IH. by constructor.
Qed.

(** The slots of a reachable store are the ones generated at start-up. *)
Lemma reachable_slots st : reachable st → ∃ e, slots st = generateWeeklySlots e.
Proof.
  induction 1 as [e|c st _ [e IH]]; [by exists e|].
  exists e. by rewrite step_slots.
Qed.

Lemma reachable_slot_shape st slot :
  reachable st → slot ∈ slots st →
  TimeSlot.id slot = ruleSlotId (TimeSlot.date slot) (TimeSlot.time slot)
  ∧ TimeSlot.available slot = true.
Proof.
  intros [e He]%reachable_slots Hin. rewrite He in Hin.
  by eapply generateWeeklySlots_shape.
Qed.

(** ** The availability query, as specified and as computed *)

(** A blocking rule for the slot's date that lists the slot's time. *)
Definition rule_covers (slot : TimeSlot.t) (rule : AvailabilityRule.t) : Prop :=
  AvailabilityRule.isBlocked rule
  ∧ AvailabilityRule.date rule = TimeSlot.date slot
  ∧ TimeSlot.time slot ∈ AvailabilityRule.timeSlots rule.

(** The specification's three reasons for a slot to be unavailable. *)
Definition unavailable_as_specified (st : AppointmentService) (slot : TimeSlot.t) : Prop :=
  slot_taken st (TimeSlot.id slot)
  ∨ (∃ rule, rule ∈ availabilityRules st ∧ rule_covers slot rule)
  ∨ TimeSlot.available slot = false.

(** The query returns every slot, in order, with nothing but the flag
    changed; [unavailable] says when the flag is off; the store is left as
    it was. *)
Definition recomputes_availability
    (unavailable : AppointmentService → TimeSlot.t → Prop)
    (st : AppointmentService) : Prop :=
  (getAvailableSlots st).2 = st
  ∧ length (getAvailableSlots st).1 = length (slots st)
  ∧ ∀ i slot, slots st !! i = Some slot →
      ∃ slot', (getAvailableSlots st).1 !! i = Some slot'
               ∧ TimeSlot.id slot' = TimeSlot.id slot
               ∧ TimeSlot.date slot' = TimeSlot.date slot
               ∧ TimeSlot.time slot' = TimeSlot.time slot
               ∧ (TimeSlot.available slot' = false ↔ unavailable st slot).

(** What the code goes by instead of the second reason: some blocking rule
    has a time that, appended to the rule's date, spells the slot id. *)
Definition unavailable_as_computed (st : AppointmentService) (slot : TimeSlot.t) : Prop :=
  slot_taken st (TimeSlot.id slot)
  ∨ slot_blocked st (TimeSlot.id slot)
  ∨ TimeSlot.available slot = false.

(** A store with one rule whose date is not a calendar date: date [2024],
    time [01-01-09:00]. *)
Definition aliasStore : AppointmentService :=
  (setAvailability sampleEnv (RuleData.mk "2024" ["01-01-09:00"] true None)
     sampleStore).2.

(** C5, as stated, fails: rule dates and times are free text, and a blocking
    rule for the date [2024] with the time [01-01-09:00] makes the 09:00
    slot of 2024-01-01 unavailable, although the store holds no booking and
    no rule for that slot's date. *)
Lemma getAvailableSlots_counterexample :
  reachable aliasStore ∧ ¬ recomputes_availability unavailable_as_specified aliasStore.
Proof.
  split; [apply (reachable_step (call_setAvailability _ _)), reachable_new|].
  intros (_ & _ & Hall).
  destruct (Hall 0%nat (TimeSlot.mk "2024-01-01-09:00" "2024-01-01" "09:00" true) eq_refl)
    as (slot' & Hslot' & _ & _ & _ & Hflag).
  vm_compute in Hslot'. injection Hslot' as <-.
  destruct (proj1 Hflag eq_refl) as [(b & Hb & _) | [(rule & Hr & _ & Hdate & _) | Hstatic]].
  - vm_compute in Hb. by apply elem_of_nil in Hb.
  - vm_compute in Hr. apply list_elem_of_singleton in Hr as ->. discriminate Hdate.
  - discriminate Hstatic.
Qed.

(** C5, amended. In every reachable store the query returns the full
    generated slot list with each flag recomputed: a slot is unavailable if
    and only if a booking that is not denied references its id, or some
    blocking rule has a time that, appended to the rule's date with a
    hyphen, spells the slot id (or the slot's own flag is off, which never
    happens for generated slots). For a rule whose date is as long as the
    slot's date, as two calendar dates are, spelling the id is the same as
    being a rule for the slot's date that lists the slot's time. The store
    is not changed. *)
Theorem getAvailableSlots_recomputes st :
  reachable st →
  recomputes_availability unavailable_as_computed st
  ∧ ∀ slot rule,
      slot ∈ slots st →
      String.length (AvailabilityRule.date rule) = String.length (TimeSlot.date slot) →
      (rule_blocks (TimeSlot.id slot) rule ↔ rule_covers slot rule).
Proof.
  intros Hreach. split; [split_and!|].
  - done.
  - unfold getAvailableSlots; simpl. by rewrite length_fmap.
  - intros i slot Hi.
    destruct (getAvailableSlots_lookup st i slot Hi) as (flag & Hl & Hflag).
    eexists. split; [exact Hl|]. simpl. split_and!; try done.
    rewrite Hflag. unfold unavailable_as_computed.
    destruct (reachable_slot_shape st slot Hreach) as [_ Hstatic];
      [eauto using list_elem_of_lookup_2|].
    rewrite Hstatic. naive_solver.
  - intros slot rule Hin Hlen.
    destruct (reachable_slot_shape st slot Hreach Hin) as [Hid _].
    unfold rule_blocks, rule_covers. rewrite Hid. split.
    + intros (Hb & time & Htime & Heq).
      symmetry in Heq. apply ruleSlotId_inj in Heq as [-> ->]; done.
    + intros (Hb & <- & Htime). eauto.
Qed.

Lemma getAvailableSlots_recomputes_witness :
  recomputes_availability unavailable_as_computed aliasStore.
Proof.
  refine (proj1 (getAvailableSlots_recomputes aliasStore _)).
  apply (reachable_step (call_setAvailability _ _)), reachable_new.
Defined.

(** ** Availability rules *)

Lemma blockedSlotIds_snoc_inert rules rule :
  AvailabilityRule.isBlocked rule = false →
  blockedSlotIds (rules ++ [rule]) = blockedSlotIds rules.
Proof.
  intros Hinert. unfold blockedSlotIds.
  rewrite filter_app, filter_cons_False, filter_nil, app_nil_r; [done|].
  rewrite Hinert. auto.
Qed.

Lemma blockedSlotIds_only_blocking (rules : list AvailabilityRule.t) :
  blockedSlotIds (filter (λ rule, AvailabilityRule.isBlocked rule) rules)
  = blockedSlotIds rules.
Proof.
  unfold blockedSlotIds. f_equal.
  rewrite list_filter_filter. apply list_filter_iff. tauto.
Qed.

Lemma filter_date_id (rules : list AvailabilityRule.t) (date : string) :
  (∀ rule, rule ∈ rules → AvailabilityRule.date rule ≠ date) →
  filter (λ rule, AvailabilityRule.date rule ≠ date) rules = rules.
Proof.
  intros Hall. induction rules as [|r rules IH]; [done|].
  rewrite filter_cons_True by (apply Hall; left).
  f_equal. apply IH. intros rule Hin. apply Hall. by right.
Qed.

(** The store with the rules of one date taken out. *)
Definition without_rules_for (date : string) (st : AppointmentService)
  : AppointmentService :=
  mkService (bookings st) (slots st)
    (filter (λ rule, AvailabilityRule.date rule ≠ date) (availabilityRules st)).

(** What a rule that does not block leaves blocked: the ids named by the
    blocking rules of the other dates. *)
Lemma slot_blocked_after_nonblocking e data st slotId :
  RuleData.isBlocked data = false →
  slot_blocked (setAvailability e data st).2 slotId
  ↔ ∃ rule, rule ∈ availabilityRules st
            ∧ AvailabilityRule.date rule ≠ RuleData.date data
            ∧ rule_blocks slotId rule.
Proof.
  intros Hinert. unfold slot_blocked, setAvailability; simpl. split.
  - intros (rule & Hin & Hblocks).
    apply elem_of_app in Hin as [Hin | Hin].
    + apply list_elem_of_filter in Hin as [Hne Hin]. eauto.
    + apply list_elem_of_singleton in Hin as ->.
      destruct Hblocks as [Hb _]. simpl in Hb. rewrite Hinert in Hb. done.
  - intros (rule & Hin & Hne & Hblocks).
    exists rule. split; [|done].
    apply elem_of_app. left. by apply list_elem_of_filter.
Qed.

(** The claim of C10 at one call: adding the non-blocking rule leaves the
    flags the query reports as they were. *)
Definition nonblocking_rule_inert (e : Env) (data : RuleData.t)
    (st : AppointmentService) : Prop :=
  RuleData.isBlocked data = false →
  (getAvailableSlots (setAvailability e data st).2).1 = (getAvailableSlots st).1.

(** The sample store with its first Monday slot blocked. *)
Definition blockedStore : AppointmentService :=
  (setAvailability sampleEnv (RuleData.mk "2024-01-01" ["09:00"; "09:30"] true None)
     sampleStore).2.

(** C10, as stated, fails. [setAvailability] takes out the rule the date
    already had whether or not the new rule blocks, so a non-blocking rule
    for a date that had a blocking rule grants availability: with 09:00 and
    09:30 of 2024-01-01 blocked, a non-blocking rule for 2024-01-01 turns
    both slots from unavailable to available. *)
Lemma nonblocking_rule_counterexample :
  let data := RuleData.mk "2024-01-01" ["10:00"] false None in
  let st' := (setAvailability laterEnv data blockedStore).2 in
  reachable blockedStore
  ∧ RuleData.isBlocked data = false
  ∧ flag_at blockedStore 0 = Some false ∧ flag_at st' 0 = Some true
  ∧ flag_at blockedStore 1 = Some false ∧ flag_at st' 1 = Some true
  ∧ ¬ nonblocking_rule_inert laterEnv data blockedStore.
Proof.
  cbv zeta. split_and!.
  - apply (reachable_step (call_setAvailability _ _)), reachable_new.
  - reflexivity.
  - vm_compute; reflexivity.
  - vm_compute; reflexivity.
  - vm_compute; reflexivity.
  - vm_compute; reflexivity.
  - intros Hclaim. specialize (Hclaim eq_refl).
    apply (f_equal (λ sl, TimeSlot.available <$> sl !! 0%nat)) in Hclaim.
    vm_compute in Hclaim. discriminate Hclaim.
Qed.

(** C10, amended. A rule with [isBlocked = false] names no blocked id itself,
    but it replaces the rule its date had. After [setAvailability] adds one,
    the flags reported by [getAvailableSlots] are those of the store with
    the rules of that date taken out: no slot becomes unavailable; a slot is
    reported available exactly when no booking that is not denied references
    it and no blocking rule of another date names its id, so a slot that
    only the date's former blocking rule kept unavailable becomes
    available; and when the date had no blocking rule the flags are the
    ones reported before the call. In any case dropping every non-blocking
    rule from the store changes no flag. *)
Theorem nonblocking_rule_clears_its_date e data st :
  RuleData.isBlocked data = false →
  let st' := (setAvailability e data st).2 in
  (getAvailableSlots st').1
  = (getAvailableSlots (without_rules_for (RuleData.date data) st)).1
  ∧ (∀ i slot, slots st !! i = Some slot →
       (flag_at st i = Some true → flag_at st' i = Some true)
       ∧ (flag_at st' i = Some true
          ↔ ¬ slot_taken st (TimeSlot.id slot)
            ∧ ¬ ∃ rule, rule ∈ availabilityRules st
                        ∧ AvailabilityRule.date rule ≠ RuleData.date data
                        ∧ rule_blocks (TimeSlot.id slot) rule))
  ∧ ((∀ rule, rule ∈ availabilityRules st →
              AvailabilityRule.date rule = RuleData.date data →
              AvailabilityRule.isBlocked rule = false) →
     (getAvailableSlots st').1 = (getAvailableSlots st).1)
  ∧ (getAvailableSlots st').1
    = (getAvailableSlots
         (mkService (bookings st') (slots st')
            (filter (λ rule, AvailabilityRule.isBlocked rule) (availabilityRules st')))).1.
Proof.
  intros Hinert st'. split_and!; [| | |
    apply getAvailableSlots_same_blocked; by rewrite blockedSlotIds_only_blocking].
  - apply getAvailableSlots_same_blocked. by apply blockedSlotIds_snoc_inert.
  - intros i slot Hi.
    assert (flag_at st' i = Some true
            ↔ ¬ slot_taken st (TimeSlot.id slot)
              ∧ ¬ ∃ rule, rule ∈ availabilityRules st
                          ∧ AvailabilityRule.date rule ≠ RuleData.date data
                          ∧ rule_blocks (TimeSlot.id slot) rule) as Hiff.
    { rewrite (flag_at_true st' i slot Hi). subst st'.
      by rewrite (slot_blocked_after_nonblocking e data st _ Hinert). }
    split; [|exact Hiff].
    intros [Hfree Hopen]%(flag_at_true st i slot Hi).
    apply Hiff. split; [done|].
    intros (rule & Hin & _ & Hblocks). apply Hopen. by exists rule.
  - intros Hnone. destruct st as [bs sl rules]; simpl in *.
    apply getAvailableSlots_same_blocked.
    rewrite blockedSlotIds_snoc_inert by done.
    apply blockedSlotIds_ext. intros x. split.
    + intros (r & [_ Hin]%list_elem_of_filter & Hblocks). eauto.
    + intros (r & Hin & Hblocks). exists r. split; [|done].
      apply list_elem_of_filter. split; [|done].
      intros Hdate. destruct Hblocks as [Hb _].
      rewrite (Hnone r Hin Hdate) in Hb. done.
Qed.

Lemma nonblocking_rule_clears_its_date_witness :
  flag_at
    (setAvailability laterEnv (RuleData.mk "2024-01-01" ["10:00"] false None)
       blockedStore).2 0
  = Some true.
Proof.
  refine (proj2 (proj2 (proj1 (proj2
            (nonblocking_rule_clears_its_date laterEnv
               (RuleData.mk "2024-01-01" ["10:00"] false None) blockedStore eq_refl))
            0%nat (TimeSlot.mk "2024-01-01-09:00" "2024-01-01" "09:00" true) eq_refl)) _).
  split.
  - intros (b & Hb & _). vm_compute in Hb. by apply elem_of_nil in Hb.
  - intros (rule & Hin & Hne & _). vm_compute in Hin.
    apply list_elem_of_singleton in Hin as ->. by apply Hne.
Defined.

Lemma delete_last {A} (l : list A) x : delete (length l) (l ++ [x]) = l.
Proof. induction l as [|y l IH]; simpl; [done|]. by rewrite IH. Qed.

(** Setting a rule and deleting it by its id leaves the other dates' rules,
    provided the id was new. *)
Lemma set_then_delete e data st :
  (∀ rule, rule ∈ availabilityRules st → AvailabilityRule.id rule ≠ ruleId e) →
  deleteAvailabilityRule (ruleId e) (setAvailability e data st).2
  = (DeleteResult.ok, without_rules_for (RuleData.date data) st).
Proof.
  intros Hfresh. unfold deleteAvailabilityRule, setAvailability; simpl.
  set (kept := filter _ (availabilityRules st)).
  set (rule := AvailabilityRule.mk _ _ _ _ _ _).
  assert (list_find (λ r, AvailabilityRule.id r = ruleId e) (kept ++ [rule])
          = Some (length kept, rule)) as ->.
  { apply list_find_Some. split_and!; [|done|].
    - by rewrite lookup_app_r, Nat.sub_diag by lia.
    - intros j r Hj Hlt. rewrite lookup_app_l in Hj by done.
      apply list_elem_of_lookup_2, list_elem_of_filter in Hj as [_ Hin].
      by apply Hfresh. }
  by rewrite delete_last.
Qed.

Lemma slot_blocked_without date st slotId :
  slot_blocked (without_rules_for date st) slotId → slot_blocked st slotId.
Proof.
  intros (rule & Hin & Hblocks). apply list_elem_of_filter in Hin as [_ Hin].
  by exists rule.
Qed.

(** The claim of C7 at the slot in position [i]: with no booking on the
    slot, blocking its date and time makes it unavailable, and deleting the
    new rule makes it available, which is what it was to begin with. *)
Definition block_then_delete_restores (e : Env) (st : AppointmentService) (i : nat)
    : Prop :=
  ∀ slot, slots st !! i = Some slot →
    (∀ b, b ∈ bookings st → Booking.slotId b ≠ TimeSlot.id slot) →
    let blocked :=
      (setAvailability e
         (RuleData.mk (TimeSlot.date slot) [TimeSlot.time slot] true None) st).2 in
    let restored := (deleteAvailabilityRule (ruleId e) blocked).2 in
    flag_at blocked i = Some false
    ∧ flag_at restored i = Some true
    ∧ flag_at restored i = flag_at st i.

(** C7, as stated, fails in two ways. Setting a rule replaces the rule the
    date already had, and deleting the new rule does not bring the old one
    back: a slot that an earlier rule blocked ends up available, which it
    was not. And a rule of another date whose free-text time spells the
    slot id keeps the slot unavailable after the round trip. *)
Lemma block_then_delete_counterexample :
  (reachable blockedStore ∧ ¬ block_then_delete_restores laterEnv blockedStore 0)
  ∧ (reachable aliasStore ∧ ¬ block_then_delete_restores laterEnv aliasStore 0).
Proof.
  split; (split; [apply (reachable_step (call_setAvailability _ _)), reachable_new|]).
  - intros Hclaim.
    destruct (Hclaim (TimeSlot.mk "2024-01-01-09:00" "2024-01-01" "09:00" true) eq_refl)
      as (_ & _ & Hsame).
    + intros b Hb. vm_compute in Hb. by apply elem_of_nil in Hb.
    + vm_compute in Hsame. discriminate Hsame.
  - intros Hclaim.
    destruct (Hclaim (TimeSlot.mk "2024-01-01-09:00" "2024-01-01" "09:00" true) eq_refl)
      as (_ & Havailable & _).
    + intros b Hb. vm_compute in Hb. by apply elem_of_nil in Hb.
    + vm_compute in Havailable. discriminate Havailable.
Qed.

(** C7, amended. Take a slot of a reachable store that the query reports
    available (so no live booking references it and no blocking rule spells
    its id) and a rule id not yet in use. After [setAvailability] blocks the
    slot's date at the slot's time, the query reports the slot unavailable;
    after [deleteAvailabilityRule] deletes that rule by its id, which
    succeeds, the query reports the slot available again, as it was. *)
Theorem block_then_delete_round_trip e st i slot reason :
  reachable st →
  slots st !! i = Some slot →
  flag_at st i = Some true →
  (∀ rule, rule ∈ availabilityRules st → AvailabilityRule.id rule ≠ ruleId e) →
  let blocked :=
    (setAvailability e
       (RuleData.mk (TimeSlot.date slot) [TimeSlot.time slot] true reason) st).2 in
  let deleted := deleteAvailabilityRule (ruleId e) blocked in
  flag_at blocked i = Some false
  ∧ DeleteResult.success deleted.1 = true
  ∧ flag_at deleted.2 i = Some true
  ∧ flag_at deleted.2 i = flag_at st i.
Proof.
  intros Hreach Hi Havail Hfresh blocked deleted.
  apply (flag_at_true st i slot Hi) in Havail as Hfree.
  destruct Hfree as [Hfree Hopen].
  assert (flag_at deleted.2 i = Some true) as Hrestored.
  { subst deleted blocked. rewrite set_then_delete by done; simpl.
    apply (flag_at_true (without_rules_for (TimeSlot.date slot) st) i slot Hi).
    split; [done|].
    intros Hb. by apply slot_blocked_without in Hb. }
  split_and!.
  - apply (flag_at_false blocked i slot Hi). right.
    eexists. split; [apply elem_of_app; right; apply list_elem_of_here|].
    split; [done|]. exists (TimeSlot.time slot). simpl.
    split; [apply list_elem_of_here|].
    apply (reachable_slot_shape st slot Hreach). eauto using list_elem_of_lookup_2.
  - subst deleted blocked. by rewrite set_then_delete.
  - done.
  - by rewrite Hrestored, Havail.
Qed.

Lemma block_then_delete_round_trip_witness :
  flag_at
    (deleteAvailabilityRule (ruleId laterEnv)
       (setAvailability laterEnv (RuleData.mk "2024-01-01" ["10:00"] true None)
          sampleStore).2).2 2
  = Some true.
Proof.
  refine (proj1 (proj2 (proj2
    (block_then_delete_round_trip laterEnv sampleStore 2
       (TimeSlot.mk "2024-01-01-10:00" "2024-01-01" "10:00" true) None _ _ _ _)))).
  - apply reachable_new.
  - reflexivity.
  - reflexivity.
  - intros rule Hin. vm_compute in Hin. by apply elem_of_nil in Hin.
Defined.

(** ** The one-live-booking-per-slot invariant *)

(** How many bookings hold the slot. *)
Definition live_count (slotId : string) (bs : list Booking.t) : nat :=
  length (filter (live_on slotId) bs).

(** At most one booking that is not denied references any slot id. *)
Definition no_double_booking (st : AppointmentService) : Prop :=
  ∀ slotId, (live_count slotId (bookings st) ≤ 1)%nat.

Lemma live_count_free st slotId :
  ¬ slot_taken st slotId → live_count slotId (bookings st) = 0%nat.
Proof.
  intros Hfree. unfold live_count.
  destruct (filter _ _) as [|b bs] eqn:Hf; [done|].
  destruct Hfree. exists b.
  assert (b ∈ filter (live_on slotId) (bookings st)) as Hin
    by (rewrite Hf; left).
  apply list_elem_of_filter in Hin. tauto.
Qed.

Lemma live_count_app slotId bs bs' :
  live_count slotId (bs ++ bs') = (live_count slotId bs + live_count slotId bs')%nat.
Proof. unfold live_count. by rewrite filter_app, length_app. Qed.

(** Replacing a booking by one that holds no slot the old one did not hold
    cannot raise a count. *)
Lemma live_count_insert slotId bs i b b' :
  bs !! i = Some b → (live_on slotId b' → live_on slotId b) →
  (live_count slotId (<[i := b']> bs) ≤ live_count slotId bs)%nat.
Proof.
  unfold live_count. revert i.
  induction bs as [|x bs IH]; intros [|i] Hi Himp; simplify_eq/=.
  - rewrite !filter_cons. repeat case_decide; simpl; try lia. tauto.
  - rewrite !filter_cons. specialize (IH i Hi Himp).
    case_decide; simpl; lia.
Qed.

Lemma newService_no_double_booking e : no_double_booking (newService e).
Proof. intros slotId. unfold live_count; simpl. lia. Qed.

Lemma createBooking_no_double_booking e data st :
  no_double_booking st → no_double_booking (createBooking e data st).2.
Proof.
  intros Hinv. createBooking_cases e data st; simpl; try done.
  intros slotId. simpl. rewrite live_count_app.
  destruct (decide (slotId = BookingData.slotId data)) as [->|Hne].
  - rewrite live_count_free by done.
    unfold live_count. pose proof (length_filter (live_on (BookingData.slotId data)) [b]).
    simpl in *. lia.
  - specialize (Hinv slotId).
    unfold live_count at 2. rewrite filter_cons_False, filter_nil; simpl; [lia|].
    intros [Hs _]. congruence.
Qed.

(** A status update keeps the invariant unless it approves a booking that
    is denied. *)
Lemma updateBookingStatus_no_double_booking bookingId status st :
  no_double_booking st →
  (∀ i b, first_with_id (bookings st) bookingId i b →
          status = to_approved → Booking.status b ≠ denied) →
  no_double_booking (updateBookingStatus bookingId status st).2.
Proof.
  intros Hinv Hsafe. unfold updateBookingStatus.
  destruct (list_find _ _) as [[i b]|] eqn:Hfind; simpl; [|done].
  apply first_with_id_find in Hfind as Hfirst.
  intros slotId; simpl. etrans; [|apply (Hinv slotId)].
  apply live_count_insert with (b := b); [apply Hfirst|].
  unfold live_on; simpl. intros [Hs Hlive]. split; [done|].
  destruct status; simpl in *; [by eapply Hsafe|done].
Qed.

Lemma setAvailability_bookings e data st :
  bookings (setAvailability e data st).2 = bookings st.
Proof. done. Qed.

Lemma deleteAvailabilityRule_bookings ruleId st :
  bookings (deleteAvailabilityRule ruleId st).2 = bookings st.
Proof. unfold deleteAvailabilityRule. by destruct (list_find _ _) as [[??]|]. Qed.

(** Every call but the approval of a denied booking keeps the invariant. *)
Lemma step_no_double_booking c st :
  no_double_booking st →
  (∀ bookingId i b, c = call_updateBookingStatus bookingId to_approved →
                    first_with_id (bookings st) bookingId i b →
                    Booking.status b ≠ denied) →
  no_double_booking (step c st).
Proof.
  intros Hinv Hsafe. destruct c; simpl; try done.
  - by apply createBooking_no_double_booking.
  - apply updateBookingStatus_no_double_booking; [done|].
    intros i b Hfirst ->. by eapply Hsafe.
  - intros slotId. rewrite deleteAvailabilityRule_bookings. apply Hinv.
Qed.

(** Book a slot, deny the booking, book the slot again, approve the denied
    booking. *)
Definition redecideCalls : list Call :=
  [ call_createBooking sampleEnv sampleRequest;
    call_updateBookingStatus (bookingId sampleEnv) to_denied;
    call_createBooking laterEnv secondRequest;
    call_updateBookingStatus (bookingId sampleEnv) to_approved ].

(** C1 fails on the code. The store reached by booking a slot, denying that
    booking, booking the slot again and then approving the denied booking
    holds two bookings that are not denied on the one slot, while the store
    before the last call still had one: [updateBookingStatus] overwrites the
    status without the conflict check that [createBooking] makes. *)
Theorem redecide_breaks_no_double_booking :
  let before := run (take 3 redecideCalls) sampleStore in
  let st := run redecideCalls sampleStore in
  reachable st
  ∧ no_double_booking before
  ∧ Booking.status <$> bookings st = [approved; pending]
  ∧ Booking.slotId <$> bookings st = ["2024-01-01-09:00"; "2024-01-01-09:00"]
  ∧ live_count "2024-01-01-09:00" (bookings st) = 2%nat
  ∧ ¬ no_double_booking st.
Proof.
  split_and!.
  - apply reachable_run, reachable_new.
  - intros slotId. unfold live_count.
    replace (bookings (run (take 3 redecideCalls) sampleStore))
      with [Booking.mk "booking-1704067200000-k3x9q2m1z" "2024-01-01-09:00" "Ann"
              "ann@example.org" "checkup" denied "2024-01-01" "09:00"
              "2024-01-01T00:00:00.000Z";
            Booking.mk "booking-1704070800000-p0o9i8u7y" "2024-01-01-09:00" "Bob"
              "bob@example.org" "follow-up" pending "2024-01-01" "09:00"
              "2024-01-01T01:00:00.000Z"] by (by vm_compute).
    rewrite filter_cons_False by (by intros [_ []]).
    pose proof (length_filter (live_on slotId)
      [Booking.mk "booking-1704070800000-p0o9i8u7y" "2024-01-01-09:00" "Bob"
         "bob@example.org" "follow-up" pending "2024-01-01" "09:00"
         "2024-01-01T01:00:00.000Z"]) as Hle.
    simpl in Hle. lia.
  - by vm_compute.
  - by vm_compute.
  - by vm_compute.
  - intros Hinv. specialize (Hinv "2024-01-01-09:00").
    vm_compute in Hinv. lia.
Qed.

(** ** CSV export *)

(** Embedded double quotes escaped by doubling, as the specification asks
    (and as the [replace] of the storage-backed variant of the service does
    for the reason column). *)
Fixpoint escapeQuotes (s : string) : string :=
  match s with
  | EmptyString => EmptyString
  | String c s' =>
    if bool_decide (c = "034"%char)
    then String "034" (String "034" (escapeQuotes s'))
    else String c (escapeQuotes s')
  end.

(** The field the specification asks for: wrapped in double quotes, with
    the embedded double quotes doubled. *)
Definition spec_csvField (field : string) : string :=
  dquote +:+ escapeQuotes field +:+ dquote.

(** Reading a CSV record by the standard quoting rule. A field is either
    bare, up to the next comma, or quoted; inside a quoted field a doubled
    quote stands for one quote, and a single quote ends the field, after
    which only a comma or the end of the record may follow. *)
Inductive CsvState := field_start | in_bare | in_quoted | quote_seen.

Fixpoint parseRecord_from (state : CsvState) (field : string) (fields : list string)
    (s : string) : option (list string) :=
  match s with
  | EmptyString =>
    match state with
    | in_quoted => None
    | _ => Some (fields ++ [field])
    end
  | String c s' =>
    match state with
    | field_start =>
      if bool_decide (c = "034"%char) then parseRecord_from in_quoted "" fields s'
      else if bool_decide (c = ","%char)
      then parseRecord_from field_start "" (fields ++ [""]) s'
      else parseRecord_from in_bare (String c "") fields s'
    | in_bare =>
      if bool_decide (c = "034"%char) then None
      else if bool_decide (c = ","%char)
      then parseRecord_from field_start "" (fields ++ [field]) s'
      else parseRecord_from in_bare (field +:+ String c "") fields s'
    | in_quoted =>
      if bool_decide (c = "034"%char) then parseRecord_from quote_seen field fields s'
      else parseRecord_from in_quoted (field +:+ String c "") fields s'
    | quote_seen =>
      if bool_decide (c = "034"%char)
      then parseRecord_from in_quoted (field +:+ String "034" "") fields s'
      else if bool_decide (c = ","%char)
      then parseRecord_from field_start "" (fields ++ [field]) s'
      else None
    end
  end.

Definition parseRecord (s : string) : option (list string) :=
  parseRecord_from field_start "" [] s.

(** A record in the specification's format. *)
Definition spec_csvLine (row : list string) : string :=
  String.concat "," (spec_csvField <$> row).

(** The reason of the specification's example: He said, then hi in double
    quotes. *)
Definition quotedReason : string := "He said " +:+ dquote +:+ "hi" +:+ dquote.

Definition quotedBooking : Booking.t :=
  Booking.mk "booking-1704067200000-k3x9q2m1z" "2024-01-01-09:00" "Ann"
    "ann@example.org" quotedReason pending "2024-01-01" "09:00"
    "2024-01-01T00:00:00.000Z".

Local Arguments String.append !_ _ / : simpl nomatch.

Lemma string_app_assoc (s1 s2 s3 : string) : (s1 +:+ s2) +:+ s3 = s1 +:+ (s2 +:+ s3).
Proof. induction s1 as [|c s1 IH]; simpl; [done|]. f_equal. exact IH. Qed.

Lemma string_app_nil_r (s : string) : s +:+ "" = s.
Proof. induction s as [|c s IH]; simpl; [done|]. f_equal. exact IH. Qed.

(** Reading an escaped text inside a quoted field appends the text. *)
Lemma parseRecord_quoted_body text field fields rest :
  parseRecord_from in_quoted field fields (escapeQuotes text +:+ String "034" rest)
  = parseRecord_from quote_seen (field +:+ text) fields rest.
Proof.
  revert field. induction text as [|c text IH]; intros field; simpl.
  - by rewrite string_app_nil_r.
  - case_bool_decide as Hc; simpl.
    + subst c. rewrite IH. by rewrite string_app_assoc.
    + rewrite bool_decide_eq_false_2 by done.
      rewrite IH. by rewrite string_app_assoc.
Qed.

Lemma spec_csvLine_one field :
  spec_csvLine [field] = String "034" (escapeQuotes field +:+ String "034" "").
Proof. reflexivity. Qed.

Lemma spec_csvLine_cons field field' row :
  spec_csvLine (field :: field' :: row)
  = String "034" (escapeQuotes field
                  +:+ String "034" (String "," (spec_csvLine (field' :: row)))).
Proof.
  unfold spec_csvLine. cbn [fmap list_fmap String.concat].
  unfold spec_csvField at 1, dquote. simpl. f_equal.
  by rewrite string_app_assoc.
Qed.

(** A record written in the specification's format reads back as it was. *)
Lemma parseRecord_from_spec_csvLine row fields :
  row ≠ [] →
  parseRecord_from field_start "" fields (spec_csvLine row) = Some (fields ++ row).
Proof.
  intros Hrow. revert fields.
  induction row as [|field row IH]; intros fields; [done|].
  destruct row as [|field' row].
  - rewrite spec_csvLine_one. simpl. by rewrite parseRecord_quoted_body.
  - rewrite spec_csvLine_cons. simpl. rewrite parseRecord_quoted_body. simpl.
    rewrite IH by done. by rewrite <-(assoc_L (++)).
Qed.

Lemma parseRecord_spec_csvLine row :
  row ≠ [] → parseRecord (spec_csvLine row) = Some row.
Proof. intros Hrow. unfold parseRecord. by rewrite parseRecord_from_spec_csvLine. Qed.

(** C2 fails on the code. [exportBookingsCSV] wraps every field in double
    quotes and escapes nothing: the reason He said, then hi in double
    quotes, is written with its two quotes single, not doubled, so the field
    differs from the one the specification gives, and reading the record by
    the standard quoting rule does not give the fields back (the reader
    stops at the letter after the second quote), while a record written in
    the specification's format reads back exactly. *)
Theorem exportBookingsCSV_does_not_escape (toLocaleString : string → string) :
  let row := csvRow toLocaleString quotedBooking in
  let st := mkService [quotedBooking] [] [] in
  (exportBookingsCSV toLocaleString st).1
  = csvLine csvHeaders +:+ String "010" (csvLine row)
  ∧ row !! 5%nat = Some quotedReason
  ∧ (csvField <$> row) !! 5%nat
    = Some (dquote +:+ "He said " +:+ dquote +:+ "hi" +:+ dquote +:+ dquote)
  ∧ spec_csvField quotedReason
    = dquote +:+ "He said " +:+ dquote +:+ dquote +:+ "hi" +:+ dquote +:+ dquote
      +:+ dquote
  ∧ csvField quotedReason ≠ spec_csvField quotedReason
  ∧ parseRecord (csvLine row) = None
  ∧ parseRecord (spec_csvLine row) = Some row.
Proof.
  split_and!; try done.
  by apply parseRecord_spec_csvLine.
Qed.

(** ** Slot generation *)

(** The sixteen half-hour boundaries from 09:00 up to 17:00. *)
Definition gridTimes : list string :=
  ["09:00"; "09:30"; "10:00"; "10:30"; "11:00"; "11:30"; "12:00"; "12:30";
   "13:00"; "13:30"; "14:00"; "14:30"; "15:00"; "15:30"; "16:00"; "16:30"].

(** The five time values whose UTC dates the slots carry: the start of the
    week and the four days after it. *)
Definition slotInstants (e : Env) : list Z :=
  (λ day, JSDate.setDate (tza e) (getStartOfWeek e)
            (JSDate.getDate (tza e) (getStartOfWeek e) + day)) <$> seqZ 0 5.

(** Reading a calendar date back: the day number of a year, month and day
    of the month, and the day of the week of a [YYYY-MM-DD] text. *)
Definition dayFromCivil (y m d : Z) : Z :=
  let y' := if m <=? 2 then y - 1 else y in
  let era := y' `div` 400 in
  let yoe := y' - era * 400 in
  let mp := (m + 9) `mod` 12 in
  let doy := (153 * mp + 2) `div` 5 + d - 1 in
  let doe := yoe * 365 + yoe `div` 4 - yoe `div` 100 + doy in
  era * 146097 + doe - 719468.

Definition digitValue (c : ascii) : option Z :=
  let n := Z.of_nat (nat_of_ascii c) - 48 in
  if bool_decide (0 ≤ n ≤ 9) then Some n else None.

Fixpoint parseDigits (acc : Z) (s : string) : option Z :=
  match s with
  | EmptyString => Some acc
  | String c s' =>
    match digitValue c with
    | Some n => parseDigits (10 * acc + n) s'
    | None => None
    end
  end.

Definition dateWeekDay (date : string) : option Z :=
  if bool_decide (String.length date = 10%nat
                  ∧ String.get 4 date = Some "-"%char
                  ∧ String.get 7 date = Some "-"%char)
  then
    match parseDigits 0 (String.substring 0 4 date),
          parseDigits 0 (String.substring 5 2 date),
          parseDigits 0 (String.substring 8 2 date) with
    | Some y, Some m, Some d => Some ((dayFromCivil y m d + 4) `mod` 7)
    | _, _, _ => None
    end
  else None.

(** Every slot's date is a Monday, Tuesday, Wednesday, Thursday or Friday. *)
Definition weekdays_only (sl : list TimeSlot.t) : Prop :=
  ∀ slot, slot ∈ sl →
    ∃ w, dateWeekDay (TimeSlot.date slot) = Some w ∧ 1 ≤ w ≤ 5.

(** Two o'clock on a Monday morning, 2024-01-01, in a zone five and a half
    hours east of Greenwich, where it is still Sunday evening in UTC. *)
Definition earlyMondayEnv : Env := mkEnv 1704054600000 (JSDate.fixedOffset 19800000) "k3x9q2m1z".

Lemma generateWeeklySlots_times e :
  TimeSlot.time <$> generateWeeklySlots e
  = gridTimes ++ gridTimes ++ gridTimes ++ gridTimes ++ gridTimes.
Proof. reflexivity. Qed.

Lemma generateWeeklySlots_dates e :
  TimeSlot.date <$> generateWeeklySlots e
  = t ← slotInstants e; replicate 16 (JSDate.isoDate t).
Proof. reflexivity. Qed.

Lemma generateWeeklySlots_time_in_grid e slot :
  slot ∈ generateWeeklySlots e → TimeSlot.time slot ∈ gridTimes.
Proof.
  intros Hin. apply (list_elem_of_fmap_2 TimeSlot.time) in Hin.
  rewrite generateWeeklySlots_times in Hin.
  by rewrite !elem_of_app in Hin; destruct_or!.
Qed.

Lemma Day_add_days t k : JSDate.Day (t + k * JSDate.msPerDay) = JSDate.Day t + k.
Proof. unfold JSDate.Day, JSDate.msPerDay. by rewrite Z.div_add. Qed.

Lemma mod7_add a b d : a `mod` 7 = b `mod` 7 → (a + d) `mod` 7 = (b + d) `mod` 7.
Proof. intros H. by rewrite (Z.add_mod a), (Z.add_mod b), H by lia. Qed.

(** Putting a day and a time of day together again. *)
Lemma MakeDate_days t k :
  JSDate.MakeDate (JSDate.Day t + k) (JSDate.TimeWithinDay t) = t + k * JSDate.msPerDay.
Proof.
  unfold JSDate.MakeDate, JSDate.Day, JSDate.TimeWithinDay, JSDate.msPerDay.
  Z.to_euclidean_division_equations; lia.
Qed.

(** [setDate] moves the local time by whole days and reads the result back
    as an instant, with the offset the zone gives that local time. *)
Lemma setDate_local z t n :
  JSDate.setDate z t n
  = JSDate.UTC z (JSDate.LocalTime z t + (n - JSDate.getDate z t) * JSDate.msPerDay).
Proof.
  unfold JSDate.setDate, JSDate.MakeDayOfMonth, JSDate.getDate. cbv zeta.
  f_equal. rewrite <-MakeDate_days. f_equal. lia.
Qed.

(** The days from the Monday of the local week to today: none on a Monday,
    six on a Sunday. *)
Definition daysSinceMonday (e : Env) : Z :=
  (JSDate.getDay (tza e) (now e) + 6) `mod` 7.

(** The local time on the Monday of the local week at which the clock read
    what it reads now. *)
Definition localMonday (e : Env) : Z :=
  JSDate.LocalTime (tza e) (now e) - daysSinceMonday e * JSDate.msPerDay.

Lemma getDay_range z t : 0 ≤ JSDate.getDay z t ≤ 6.
Proof. unfold JSDate.getDay, JSDate.WeekDay. Z.to_euclidean_division_equations; lia. Qed.

Lemma daysSinceMonday_range e : 0 ≤ daysSinceMonday e ≤ 6.
Proof. unfold daysSinceMonday. Z.to_euclidean_division_equations; lia. Qed.

(** The start of the week is the local Monday, read back as an instant. *)
Lemma getStartOfWeek_local e : getStartOfWeek e = JSDate.UTC (tza e) (localMonday e).
Proof.
  unfold getStartOfWeek. cbv zeta. rewrite setDate_local. f_equal.
  unfold localMonday, daysSinceMonday.
  pose proof (getDay_range (tza e) (now e)) as Hday.
  generalize dependent (JSDate.getDay (tza e) (now e)). intros day Hday.
  generalize (JSDate.getDate (tza e) (now e)). intros g.
  assert ((if bool_decide (day = 0) then -6 else 1) = day - (day + 6) `mod` 7)
    as Hadj.
  { case_bool_decide; Z.to_euclidean_division_equations; lia. }
  rewrite Hadj. lia.
Qed.

Lemma localMonday_WeekDay e : JSDate.WeekDay (localMonday e) = 1.
Proof.
  unfold localMonday, daysSinceMonday, JSDate.getDay, JSDate.WeekDay.
  set (local := JSDate.LocalTime (tza e) (now e)).
  set (k := (_ + 6) `mod` 7).
  replace (local - k * JSDate.msPerDay) with (local + (- k) * JSDate.msPerDay) by lia.
  rewrite Day_add_days. subst k.
  generalize (JSDate.Day local). intros D.
  Z.to_euclidean_division_equations; lia.
Qed.

Lemma localMonday_TimeWithinDay e :
  JSDate.TimeWithinDay (localMonday e)
  = JSDate.TimeWithinDay (JSDate.LocalTime (tza e) (now e)).
Proof.
  unfold localMonday, JSDate.TimeWithinDay.
  set (k := daysSinceMonday e).
  replace (JSDate.LocalTime (tza e) (now e) - k * JSDate.msPerDay)
    with (JSDate.LocalTime (tza e) (now e) + (- k) * JSDate.msPerDay) by lia.
  by apply Z.mod_add.
Qed.

(** The five slot instants are the local start of the week and the four
    local days after it, each read back as an instant. *)
Lemma slotInstants_local e :
  slotInstants e
  = (λ day, JSDate.UTC (tza e)
              (JSDate.LocalTime (tza e) (getStartOfWeek e) + day * JSDate.msPerDay))
    <$> [0; 1; 2; 3; 4].
Proof.
  unfold slotInstants. change (seqZ 0 5) with [0; 1; 2; 3; 4].
  apply list_fmap_ext. intros _ day _. rewrite setDate_local. do 2 f_equal. lia.
Qed.

(** The zone keeps one offset, of a day at most, from seven days before the
    clock's reading to five days after it: no daylight-saving change falls
    in or next to the generated week. *)
Definition offset_steady (e : Env) (offset : Z) : Prop :=
  (- JSDate.msPerDay ≤ offset ≤ JSDate.msPerDay)
  ∧ ∀ t isUTC,
      now e - 7 * JSDate.msPerDay ≤ t ≤ now e + 5 * JSDate.msPerDay →
      tza e t isUTC = offset.

Lemma offset_steady_now e offset :
  offset_steady e offset → JSDate.LocalTime (tza e) (now e) = now e + offset.
Proof.
  intros [Hbound Hsteady]. unfold JSDate.LocalTime.
  rewrite Hsteady; [done|]. unfold JSDate.msPerDay. lia.
Qed.

(** With a steady offset the start of the week is a whole number of days
    before now. *)
Lemma getStartOfWeek_days_back e offset :
  offset_steady e offset →
  getStartOfWeek e = now e - daysSinceMonday e * JSDate.msPerDay.
Proof.
  intros Hsteady. rewrite getStartOfWeek_local. unfold localMonday.
  rewrite (offset_steady_now e offset Hsteady).
  destruct Hsteady as [Hbound Hsteady].
  pose proof (daysSinceMonday_range e) as Hk.
  unfold JSDate.UTC. rewrite Hsteady; [lia|].
  unfold JSDate.msPerDay in *. lia.
Qed.

Lemma offset_steady_start e offset :
  offset_steady e offset →
  JSDate.LocalTime (tza e) (getStartOfWeek e) = getStartOfWeek e + offset.
Proof.
  intros Hsteady. pose proof (getStartOfWeek_days_back e offset Hsteady) as Hstart.
  destruct Hsteady as [Hbound Hsteady].
  pose proof (daysSinceMonday_range e) as Hk.
  unfold JSDate.LocalTime. rewrite Hsteady; [done|].
  rewrite Hstart. unfold JSDate.msPerDay in *. lia.
Qed.

(** With a steady offset the start of the week is a Monday of the local
    calendar. *)
Lemma getStartOfWeek_local_monday e offset :
  offset_steady e offset → JSDate.getDay (tza e) (getStartOfWeek e) = 1.
Proof.
  intros Hsteady. unfold JSDate.getDay.
  rewrite (offset_steady_start e offset Hsteady),
    (getStartOfWeek_days_back e offset Hsteady).
  rewrite <-(localMonday_WeekDay e). f_equal. unfold localMonday.
  rewrite (offset_steady_now e offset Hsteady). lia.
Qed.

(** With a steady offset the five slot instants are twenty-four hours
    apart. *)
Lemma slotInstants_days e offset :
  offset_steady e offset →
  slotInstants e
  = (λ day, getStartOfWeek e + day * JSDate.msPerDay) <$> [0; 1; 2; 3; 4].
Proof.
  intros Hsteady. rewrite slotInstants_local.
  rewrite (offset_steady_start e offset Hsteady).
  pose proof (getStartOfWeek_days_back e offset Hsteady) as Hstart.
  destruct Hsteady as [Hbound Hsteady].
  pose proof (daysSinceMonday_range e) as Hk.
  assert (∀ day, 0 ≤ day ≤ 4 →
            JSDate.UTC (tza e) (getStartOfWeek e + offset + day * JSDate.msPerDay)
            = getStartOfWeek e + day * JSDate.msPerDay) as Hday.
  { intros day Hd. unfold JSDate.UTC. rewrite Hsteady; [lia|].
    rewrite Hstart. unfold JSDate.msPerDay in *. lia. }
  cbn [fmap list_fmap]. by rewrite !Hday by lia.
Qed.

(** The days of the week of the five generated dates under a steady offset.
    The dates are UTC dates of time values that run from Monday to Friday
    in local time; when the local calendar is [shift] days ahead of UTC at
    the clock's reading they run from weekday [1 - shift]: Monday to Friday
    when the two calendars agree, Sunday to Thursday when the local date is
    a day ahead, Tuesday to Saturday when it is a day behind. *)
Lemma slotInstants_weekdays_shifted e offset shift :
  offset_steady e offset →
  JSDate.Day (now e + offset) = JSDate.Day (now e) + shift →
  JSDate.WeekDay <$> slotInstants e
  = (λ day, (1 - shift + day) `mod` 7) <$> [0; 1; 2; 3; 4].
Proof.
  intros Hsteady Hshift.
  assert (JSDate.WeekDay (getStartOfWeek e) = (1 - shift) `mod` 7) as Hmon.
  { pose proof (localMonday_WeekDay e) as Hloc.
    unfold localMonday in Hloc.
    rewrite (offset_steady_now e offset Hsteady) in Hloc.
    rewrite (getStartOfWeek_days_back e offset Hsteady).
    set (k := daysSinceMonday e) in *. clearbody k.
    unfold JSDate.WeekDay in *.
    replace (now e + offset - k * JSDate.msPerDay)
      with (now e + offset + (- k) * JSDate.msPerDay) in Hloc by lia.
    replace (now e - k * JSDate.msPerDay)
      with (now e + (- k) * JSDate.msPerDay) by lia.
    rewrite !Day_add_days in *. rewrite Hshift in Hloc.
    revert Hloc. generalize (JSDate.Day (now e)). intros D Hloc.
    replace (D + - k + 4) with (D + shift + - k + 4 + - shift) by lia.
    replace (1 - shift) with (1 + - shift) by lia.
    apply mod7_add. by rewrite Hloc. }
  rewrite (slotInstants_days e offset Hsteady), <-list_fmap_compose.
  unfold JSDate.WeekDay in *. cbn [fmap list_fmap compose].
  rewrite !Day_add_days.
  generalize dependent (JSDate.Day (getStartOfWeek e)). intros D HD.
  assert (∀ d, (D + d + 4) `mod` 7 = (1 - shift + d) `mod` 7) as Hd.
  { intros d. replace (D + d + 4) with (D + 4 + d) by lia. by apply mod7_add. }
  by rewrite !Hd.
Qed.

(** Where the offset is steady and the local and the UTC calendar agree on
    today's date, the five generated dates fall on Monday to Friday. *)
Lemma slotInstants_weekdays e offset :
  offset_steady e offset →
  JSDate.Day (now e + offset) = JSDate.Day (now e) →
  JSDate.WeekDay <$> slotInstants e = [1; 2; 3; 4; 5].
Proof.
  intros Hsteady Hsame.
  rewrite (slotInstants_weekdays_shifted e offset 0 Hsteady) by lia.
  reflexivity.
Qed.

(** C6 fails on the code. The slot dates are the UTC dates of time values
    that are Monday to Friday in local time. At two o'clock on a Monday
    morning five and a half hours east of Greenwich the clock reads Sunday
    evening in UTC, and the week generated is Sunday 2023-12-31 to Thursday
    2024-01-04: there is a Sunday slot and no Friday slot. The times of day,
    the ids and the order are as claimed. *)
Theorem generateWeeklySlots_weekend_slot :
  let sl := generateWeeklySlots earlyMondayEnv in
  JSDate.toISOString (now earlyMondayEnv) = "2023-12-31T20:30:00.000Z"
  ∧ JSDate.getDay (tza earlyMondayEnv) (now earlyMondayEnv) = 1
  ∧ sl !! 0%nat = Some (TimeSlot.mk "2023-12-31-09:00" "2023-12-31" "09:00" true)
  ∧ dateWeekDay "2023-12-31" = Some 0
  ∧ remove_dups (TimeSlot.date <$> sl)
    = ["2023-12-31"; "2024-01-01"; "2024-01-02"; "2024-01-03"; "2024-01-04"]
  ∧ ¬ weekdays_only sl.
Proof.
  assert (generateWeeklySlots earlyMondayEnv !! 0%nat
          = Some (TimeSlot.mk "2023-12-31-09:00" "2023-12-31" "09:00" true)) as Hfirst
    by (vm_compute; reflexivity).
  assert (dateWeekDay "2023-12-31" = Some 0) as Hsunday by (vm_compute; reflexivity).
  split_and!.
  - vm_compute; reflexivity.
  - vm_compute; reflexivity.
  - exact Hfirst.
  - exact Hsunday.
  - vm_compute; reflexivity.
  - intros Hall.
    destruct (Hall (TimeSlot.mk "2023-12-31-09:00" "2023-12-31" "09:00" true))
      as (w & Hw & Hrange).
    + eapply list_elem_of_lookup_2, Hfirst.
    + cbn [TimeSlot.date] in Hw. rewrite Hsunday in Hw. injection Hw as <-. lia.
Qed.

(** * Further properties of the store *)

(** ** The slot list is fixed at construction *)

(** X1. No method adds, removes or alters a slot: after any sequence of calls
    the slot list is the one generated when the service was constructed. *)
Theorem run_keeps_generated_slots calls e :
  slots (run calls (newService e)) = generateWeeklySlots e.
Proof.
  change (generateWeeklySlots e) with (slots (newService e)).
  generalize (newService e). induction calls as [|c calls IH]; intros st; simpl; [done|].
  by rewrite IH, step_slots.
Qed.

(** ** Availability rules: one rule per date *)

(** The dates of the stored rules, in collection order. *)
Definition ruleDates (st : AppointmentService) : list string :=
  AvailabilityRule.date <$> availabilityRules st.

Lemma NoDup_fmap_filter {A B} (f : A → B) (P : A → Prop) `{!∀ x, base.Decision (P x)}
    (l : list A) :
  NoDup (f <$> l) → NoDup (f <$> filter P l).
Proof.
  induction l as [|x l IH]; simpl; [done|].
  rewrite NoDup_cons. intros [Hx Hl]. rewrite filter_cons.
  case_decide; simpl; [|by apply IH].
  apply NoDup_cons. split; [|by apply IH].
  intros (y & Hy & Hin)%list_elem_of_fmap.
  apply list_elem_of_filter in Hin as [_ Hin].
  apply Hx. rewrite Hy. by apply list_elem_of_fmap_2.
Qed.

Lemma filter_none {A} (P : A → Prop) `{!∀ x, base.Decision (P x)} (l : list A) :
  (∀ x, x ∈ l → ¬ P x) → filter P l = [].
Proof.
  induction l as [|x l IH]; intros Hall; [done|].
  rewrite filter_cons_False by (apply Hall; left).
  apply IH. intros y Hy. apply Hall. by right.
Qed.

Lemma NoDup_fmap_delete {A B} (f : A → B) (l : list A) i :
  NoDup (f <$> l) → NoDup (f <$> delete i l).
Proof.
  revert i. induction l as [|x l IH]; intros [|i]; simpl; try done.
  - rewrite NoDup_cons. tauto.
  - rewrite !NoDup_cons. intros [Hx Hl]. split; [|by apply IH].
    intros (y & Hy & Hin)%list_elem_of_fmap. apply Hx. rewrite Hy.
    apply list_elem_of_fmap_2. by eapply list_elem_of_delete_inv.
Qed.

Lemma setAvailability_ruleDates e data st :
  NoDup (ruleDates st) → NoDup (ruleDates (setAvailability e data st).2).
Proof.
  unfold ruleDates; simpl. intros Hnd. rewrite fmap_app; simpl.
  apply NoDup_app. split_and!.
  - by apply NoDup_fmap_filter.
  - intros d (r & -> & Hin)%list_elem_of_fmap Hd.
    apply list_elem_of_filter in Hin as [Hne _].
    apply list_elem_of_singleton in Hd. done.
  - apply NoDup_singleton.
Qed.

Lemma step_ruleDates c st : NoDup (ruleDates st) → NoDup (ruleDates (step c st)).
Proof.
  destruct c; simpl; try done.
  - by createBooking_cases e data st.
  - unfold updateBookingStatus. by destruct (list_find _ _) as [[??]|].
  - apply setAvailability_ruleDates.
  - unfold deleteAvailabilityRule, ruleDates.
    destruct (list_find _ _) as [[i r]|]; simpl; [|done].
    apply NoDup_fmap_delete.
Qed.

(** X2. In every reachable store no two rules carry the same date. *)
Theorem reachable_one_rule_per_date st :
  reachable st → NoDup (ruleDates st).
Proof.
  induction 1 as [e|c st _ IH]; [apply NoDup_nil_2|]. by apply step_ruleDates.
Qed.

(** A store reached by four [setAvailability] calls, the last of which
    replaces the rule of 2024-01-01: it holds the rules of 2024-01-03,
    2024-01-02 and 2024-01-01, in this order. *)
Definition threeRulesStore : AppointmentService :=
  run [call_setAvailability sampleEnv (RuleData.mk "2024-01-03" ["09:00"] true None);
       call_setAvailability laterEnv (RuleData.mk "2024-01-01" ["09:00"] true None);
       call_setAvailability sampleEnv (RuleData.mk "2024-01-02" ["10:00"] false None);
       call_setAvailability laterEnv
         (RuleData.mk "2024-01-01" ["11:00"] true (Some "holiday"))]
      sampleStore.

Lemma reachable_one_rule_per_date_witness :
  NoDup (ruleDates threeRulesStore)
  ∧ ruleDates threeRulesStore = ["2024-01-03"; "2024-01-02"; "2024-01-01"].
Proof.
  split; [|vm_compute; reflexivity].
  apply reachable_one_rule_per_date.
  exact (reachable_run _ sampleStore (reachable_new sampleEnv)).
Defined.

(** X3. [setAvailability] always succeeds and replaces: afterwards the new rule
    is the last rule and the only one for its date, the rules of the other
    dates are kept as they were and in their order, and bookings and slots
    are untouched. *)
Theorem setAvailability_replaces e data st :
  let r := (setAvailability e data st).1 in
  let st' := (setAvailability e data st).2 in
  RuleResult.success r = true
  ∧ RuleResult.error r = None
  ∧ (∃ rule, RuleResult.rule r = Some rule
       ∧ last (availabilityRules st') = Some rule
       ∧ AvailabilityRule.id rule = ruleId e
       ∧ AvailabilityRule.date rule = RuleData.date data
       ∧ AvailabilityRule.timeSlots rule = RuleData.timeSlots data
       ∧ AvailabilityRule.isBlocked rule = RuleData.isBlocked data
       ∧ filter (λ x, AvailabilityRule.date x = RuleData.date data)
                (availabilityRules st') = [rule])
  ∧ filter (λ x, AvailabilityRule.date x ≠ RuleData.date data) (availabilityRules st')
    = filter (λ x, AvailabilityRule.date x ≠ RuleData.date data) (availabilityRules st)
  ∧ bookings st' = bookings st
  ∧ slots st' = slots st.
Proof.
  simpl. split_and!; try done.
  - eexists. split_and!; try done.
    + by rewrite last_snoc.
    + rewrite filter_app, filter_cons_True, filter_nil by done.
      rewrite filter_none; [done|].
      intros x Hx%list_elem_of_filter. tauto.
  - rewrite filter_app, filter_cons_False, filter_nil, app_nil_r by (simpl; tauto).
    rewrite list_filter_filter. apply list_filter_iff. tauto.
Qed.

(** X4. [deleteAvailabilityRule] answers "Availability rule not found" exactly
    when no rule carries the id, and then changes nothing. Otherwise it
    succeeds and removes one rule, the first that carries the id: the rules
    before and after it are kept in order, and bookings and slots are
    untouched. *)
Theorem deleteAvailabilityRule_removes_first ruleId st :
  let r := (deleteAvailabilityRule ruleId st).1 in
  let st' := (deleteAvailabilityRule ruleId st).2 in
  (DeleteResult.error r = Some "Availability rule not found"
   ↔ ∀ rule, rule ∈ availabilityRules st → AvailabilityRule.id rule ≠ ruleId)
  ∧ (DeleteResult.success r = false
     ↔ ∀ rule, rule ∈ availabilityRules st → AvailabilityRule.id rule ≠ ruleId)
  ∧ (DeleteResult.success r = false → st' = st)
  ∧ (DeleteResult.success r = true →
     ∃ before rule after,
       availabilityRules st = before ++ rule :: after
       ∧ AvailabilityRule.id rule = ruleId
       ∧ (∀ x, x ∈ before → AvailabilityRule.id x ≠ ruleId)
       ∧ availabilityRules st' = before ++ after)
  ∧ bookings st' = bookings st
  ∧ slots st' = slots st.
Proof.
  unfold deleteAvailabilityRule.
  destruct (list_find _ _) as [[i rule]|] eqn:Hfind; simpl.
  - apply list_find_Some in Hfind as (Hi & Hid & Hfirst).
    assert (¬ ∀ x, x ∈ availabilityRules st → AvailabilityRule.id x ≠ ruleId) as Hex.
    { intros Hnone. destruct (Hnone rule); eauto using list_elem_of_lookup_2. }
    split_and!; try done.
    intros _. exists (take i (availabilityRules st)), rule,
      (drop (S i) (availabilityRules st)).
    split_and!; [|done| |].
    + by rewrite <-(take_drop_middle _ i rule) at 1.
    + intros x [j Hj]%list_elem_of_lookup_1.
      apply lookup_take_Some in Hj as [Hj Hlt]. eauto.
    + apply delete_take_drop.
  - apply list_find_None in Hfind. rewrite Forall_forall in Hfind.
    split_and!; try done.
Qed.

Lemma deleteAvailabilityRule_removes_first_witness :
  (deleteAvailabilityRule "rule-0-none" blockedStore).2 = blockedStore.
Proof.
  refine (proj1 (proj2 (proj2
    (deleteAvailabilityRule_removes_first "rule-0-none" blockedStore))) _).
  reflexivity.
Defined.

(** ** What a stored booking looks like *)

(** What [createBooking] checked before it stored the booking: the three
    texts are not empty, the email has an at sign, and the booking copies
    the date and the time of a slot that carries its slot id. *)
Definition admitted (st : AppointmentService) (b : Booking.t) : Prop :=
  Booking.name b ≠ "" ∧ Booking.email b ≠ "" ∧ Booking.reason b ≠ ""
  ∧ includes (Booking.email b) "@" = true
  ∧ ∃ slot, slot ∈ slots st ∧ TimeSlot.id slot = Booking.slotId b
            ∧ TimeSlot.date slot = Booking.date b
            ∧ TimeSlot.time slot = Booking.time b.

(** A successful [createBooking], read backwards. *)
Lemma createBooking_success_inv e data st :
  BookingResult.success (createBooking e data st).1 = true →
  ∃ i slot,
    slots st !! i = Some slot
    ∧ TimeSlot.id slot = BookingData.slotId data
    ∧ (∀ j slot', slots st !! j = Some slot' → (j < i)%nat →
         TimeSlot.id slot' ≠ BookingData.slotId data)
    ∧ ¬ missing data
    ∧ includes (BookingData.email data) "@" = true
    ∧ ¬ slot_taken st (BookingData.slotId data)
    ∧ createBooking e data st
      = let b := Booking.mk (bookingId e) (BookingData.slotId data)
                   (BookingData.name data) (BookingData.email data)
                   (BookingData.reason data) pending (TimeSlot.date slot)
                   (TimeSlot.time slot) (JSDate.toISOString (now e)) in
        (BookingResult.ok b,
         mkService (bookings st ++ [b]) (slots st) (availabilityRules st)).
Proof.
  unfold createBooking.
  destruct (_ || _) eqn:Hm; [done|]. apply not_missing_falsy in Hm.
  destruct (includes _ _) eqn:Hat; simpl; [|done].
  destruct (list_find _ (slots st)) as [[i slot]|] eqn:Hslot; [|done].
  fold (live_on (BookingData.slotId data)).
  destruct (list_find _ (bookings st)) as [[j b]|] eqn:Hlive; [done|].
  intros _. apply live_find_None in Hlive.
  apply list_find_Some in Hslot as (Hi & Hid & Hfirst).
  exists i, slot. split_and!; try done.
Qed.

Lemma elem_of_insert_inv {A} (l : list A) i x y :
  y ∈ <[i := x]> l → y = x ∨ y ∈ l.
Proof.
  intros [j Hj]%list_elem_of_lookup_1.
  destruct (decide (i = j)) as [->|Hne].
  - destruct (decide (j < length l)%nat).
    + rewrite list_lookup_insert_eq in Hj by done. left. congruence.
    + rewrite list_insert_ge in Hj by lia. right. eauto using list_elem_of_lookup_2.
  - rewrite list_lookup_insert_ne in Hj by done. right.
    eauto using list_elem_of_lookup_2.
Qed.

Lemma step_admitted c st :
  (∀ bk, bk ∈ bookings st → admitted st bk) →
  ∀ bk, bk ∈ bookings (step c st) → admitted (step c st) bk.
Proof.
  intros Hall bk Hb. unfold admitted. rewrite step_slots.
  destruct c; simpl in Hb; try by apply Hall.
  - destruct (BookingResult.success (createBooking e data st).1) eqn:Hok.
    + destruct (createBooking_success_inv e data st Hok)
        as (i & slot & Hi & Hid & _ & Hm & Hat & _ & Heq).
      rewrite Heq in Hb. simpl in Hb.
      apply elem_of_app in Hb as [Hb | ->%list_elem_of_singleton]; [by apply Hall|].
      simpl. unfold missing in Hm. split_and!; try tauto.
      exists slot. eauto using list_elem_of_lookup_2.
    + revert Hok Hb. createBooking_cases e data st; simpl; try done;
        intros _ Hb; by apply Hall.
  - unfold updateBookingStatus in Hb.
    destruct (list_find _ _) as [[i b0]|] eqn:Hfind; simpl in Hb; [|by apply Hall].
    apply elem_of_insert_inv in Hb as [-> | Hb]; [|by apply Hall].
    apply list_find_Some in Hfind as (Hi & _ & _).
    apply (Hall b0). eauto using list_elem_of_lookup_2.
  - rewrite deleteAvailabilityRule_bookings in Hb. by apply Hall.
Qed.

(** X5. Every booking of a reachable store went through the checks of
    [createBooking]: name, email and reason are not empty, the email has an
    at sign, and the booking carries the date and time of a generated slot
    with its slot id, so that its slot id is its date, a hyphen and its
    time. No later call changes that. *)
Theorem reachable_bookings_admitted st b :
  reachable st → b ∈ bookings st →
  admitted st b
  ∧ Booking.slotId b = ruleSlotId (Booking.date b) (Booking.time b).
Proof.
  intros Hreach Hb.
  assert (admitted st b) as Hadm.
  { revert b Hb. induction Hreach as [e|c st _ IH].
    - intros b Hb. by apply elem_of_nil in Hb.
    - by apply step_admitted. }
  split; [done|].
  destruct Hadm as (_ & _ & _ & _ & slot & Hin & Hid & Hdate & Htime).
  destruct (reachable_slot_shape st slot Hreach Hin) as [Hshape _].
  by rewrite <-Hid, Hshape, Hdate, Htime.
Qed.

Lemma reachable_bookings_admitted_witness :
  Booking.slotId quotedBooking
  = ruleSlotId (Booking.date quotedBooking) (Booking.time quotedBooking).
Proof.
  refine (proj2 (reachable_bookings_admitted
    (createBooking sampleEnv
       (BookingData.mk "2024-01-01-09:00" "Ann" "ann@example.org" quotedReason)
       sampleStore).2 quotedBooking _ _)).
  - exact (reachable_step
             (call_createBooking sampleEnv
                (BookingData.mk "2024-01-01-09:00" "Ann" "ann@example.org" quotedReason))
             sampleStore (reachable_new sampleEnv)).
  - vm_compute. apply list_elem_of_here.
Defined.

(** ** Bookings and the availability query *)

Lemma flag_at_agree st st' i slot :
  slots st !! i = Some slot → slots st' !! i = Some slot →
  (slot_taken st (TimeSlot.id slot) ∨ slot_blocked st (TimeSlot.id slot)
   ↔ slot_taken st' (TimeSlot.id slot) ∨ slot_blocked st' (TimeSlot.id slot)) →
  flag_at st i = flag_at st' i.
Proof.
  intros Hi Hi' Hiff.
  destruct (getAvailableSlots_lookup st i slot Hi) as (f & Hl & Hf).
  destruct (getAvailableSlots_lookup st' i slot Hi') as (f' & Hl' & Hf').
  unfold flag_at. rewrite Hl, Hl'; simpl. f_equal.
  destruct f, f'; try done; naive_solver.
Qed.

Lemma createBooking_flags e data st :
  BookingResult.success (createBooking e data st).1 = true →
  let st' := (createBooking e data st).2 in
  ∀ i slot, slots st !! i = Some slot →
    (TimeSlot.id slot = BookingData.slotId data → flag_at st' i = Some false)
    ∧ (TimeSlot.id slot ≠ BookingData.slotId data → flag_at st' i = flag_at st i).
Proof.
  intros Hok st' i slot Hi. subst st'.
  destruct (createBooking_success_inv e data st Hok)
    as (k & found & _ & _ & _ & _ & _ & _ & Heq).
  rewrite Heq. cbv zeta. cbn [snd]. set (b := Booking.mk _ _ _ _ _ _ _ _ _).
  split.
  - intros Hid.
    apply (flag_at_false (mkService (bookings st ++ [b]) (slots st)
                            (availabilityRules st)) i slot Hi).
    left. exists b. split; [apply elem_of_app; right; apply list_elem_of_here|].
    by split.
  - intros Hne. symmetry.
    apply (flag_at_agree st (mkService (bookings st ++ [b]) (slots st)
                               (availabilityRules st)) i slot Hi Hi).
    unfold slot_taken, slot_blocked; simpl. setoid_rewrite elem_of_app.
    setoid_rewrite list_elem_of_singleton.
    split; [naive_solver|].
    intros [(b' & [Hin | ->] & Hlive) | Hblocked]; [naive_solver| |naive_solver].
    destruct Hlive as [Hs _]. simpl in Hs. congruence.
Qed.

(** X6. After a booking is accepted the query reports its slot unavailable and
    every other slot as before; so no slot that was unavailable becomes
    available. *)
Theorem createBooking_takes_the_slot e data st :
  BookingResult.success (createBooking e data st).1 = true →
  let st' := (createBooking e data st).2 in
  (∀ i slot, slots st !! i = Some slot →
     (TimeSlot.id slot = BookingData.slotId data → flag_at st' i = Some false)
     ∧ (TimeSlot.id slot ≠ BookingData.slotId data → flag_at st' i = flag_at st i))
  ∧ (∀ i, flag_at st' i = Some true → flag_at st i = Some true).
Proof.
  intros Hok st'. split; [by apply createBooking_flags|].
  intros i Hflag.
  destruct (slots st !! i) as [slot|] eqn:Hi.
  - destruct (createBooking_flags e data st Hok i slot Hi) as [Hsame Hother].
    destruct (decide (TimeSlot.id slot = BookingData.slotId data)) as [Heq|Hne].
    + fold st' in Hsame. rewrite (Hsame Heq) in Hflag. discriminate.
    + fold st' in Hother. by rewrite <-(Hother Hne).
  - unfold flag_at, getAvailableSlots in Hflag; simpl in Hflag.
    assert (slots st' = slots st) as Hslots
      by apply (step_slots (call_createBooking e data)).
    rewrite list_lookup_fmap, Hslots, Hi in Hflag. discriminate.
Qed.

Lemma createBooking_takes_the_slot_witness :
  flag_at bookedStore 0 = Some false.
Proof.
  refine (proj1 (proj1 (createBooking_takes_the_slot sampleEnv sampleRequest
                          sampleStore _)
                   0%nat (TimeSlot.mk "2024-01-01-09:00" "2024-01-01" "09:00" true) _) _);
    reflexivity.
Defined.

(** ** Deciding only pending bookings keeps the invariant *)

(** The admin list offers the approve and deny buttons for a booking only
    while [booking.status === 'pending']: a status update issued from it
    targets a pending booking. *)
Definition decides_pending (st : AppointmentService) (c : Call) : Prop :=
  match c with
  | call_updateBookingStatus bookingId _ =>
      ∀ i b, first_with_id (bookings st) bookingId i b → Booking.status b = pending
  | _ => True
  end.

(** The stores reached when every status update targets a pending booking. *)
Inductive reachable_deciding_pending : AppointmentService → Prop :=
  | deciding_new e : reachable_deciding_pending (newService e)
  | deciding_step c st :
      reachable_deciding_pending st → decides_pending st c →
      reachable_deciding_pending (step c st).

(** X7. As long as status updates are only applied to pending bookings, at most
    one booking that is not denied references any slot, whatever else is
    called and in whatever order. *)
Theorem deciding_pending_no_double_booking st :
  reachable_deciding_pending st → no_double_booking st.
Proof.
  induction 1 as [e|c st _ IH Hguard]; [apply newService_no_double_booking|].
  apply step_no_double_booking; [done|].
  intros bookingId i b -> Hfirst. simpl in Hguard.
  rewrite (Hguard i b Hfirst). done.
Qed.

(** Ann books the 09:00 slot and is denied; Bob books the same slot and is
    approved. Each decision is taken on a pending booking. *)
Definition denyThenRebook : list Call :=
  [call_createBooking sampleEnv sampleRequest;
   call_updateBookingStatus (bookingId sampleEnv) to_denied;
   call_createBooking laterEnv secondRequest;
   call_updateBookingStatus (bookingId laterEnv) to_approved].

Lemma deciding_pending_no_double_booking_witness :
  no_double_booking (run denyThenRebook sampleStore)
  ∧ Booking.status <$> bookings (run denyThenRebook sampleStore) = [denied; approved]
  ∧ Booking.slotId <$> bookings (run denyThenRebook sampleStore)
    = ["2024-01-01-09:00"; "2024-01-01-09:00"].
Proof.
  split; [|split; vm_compute; reflexivity].
  apply deciding_pending_no_double_booking.
  refine (deciding_step (call_updateBookingStatus (bookingId laterEnv) to_approved)
            (run (take 3 denyThenRebook) sampleStore)
            (deciding_step (call_createBooking laterEnv secondRequest)
               (run (take 2 denyThenRebook) sampleStore)
               (deciding_step (call_updateBookingStatus (bookingId sampleEnv) to_denied)
                  (run (take 1 denyThenRebook) sampleStore)
                  (deciding_step (call_createBooking sampleEnv sampleRequest) sampleStore
                     (deciding_new sampleEnv) I)
                  _)
               I)
            _).
  - intros i b (Hi & _ & _).
    destruct i as [|i]; vm_compute in Hi; [by injection Hi as <-|done].
  - intros i b (Hi & Hid & _).
    destruct i as [|[|i]]; vm_compute in Hi; [| |done].
    + injection Hi as <-. vm_compute in Hid. discriminate Hid.
    + by injection Hi as <-.
Defined.

(** ** Status updates and the availability query *)

Lemma live_count_lookup slotId bs j b :
  bs !! j = Some b → live_on slotId b →
  live_count slotId bs
  = (live_count slotId (take j bs) + 1 + live_count slotId (drop (S j) bs))%nat.
Proof.
  intros Hj Hlive. rewrite <-(take_drop_middle bs j b Hj) at 1.
  rewrite live_count_app. unfold live_count at 2.
  rewrite filter_cons_True by done. simpl. unfold live_count. lia.
Qed.

(** Under the invariant, the booking that holds a slot is the only one. *)
Lemma no_double_booking_unique st slotId j k b1 b2 :
  no_double_booking st →
  bookings st !! j = Some b1 → bookings st !! k = Some b2 →
  live_on slotId b1 → live_on slotId b2 → j = k.
Proof.
  intros Hinv.
  assert (∀ j k b1 b2, (j < k)%nat →
            bookings st !! j = Some b1 → bookings st !! k = Some b2 →
            live_on slotId b1 → live_on slotId b2 → False) as Hlt.
  { clear j k b1 b2. intros j k b1 b2 Hjk Hj Hk H1 H2.
    specialize (Hinv slotId).
    rewrite (live_count_lookup _ _ _ _ Hj H1) in Hinv.
    assert (drop (S j) (bookings st) !! (k - S j)%nat = Some b2) as Hk'.
    { rewrite lookup_drop. rewrite <-Hk. f_equal. lia. }
    rewrite (live_count_lookup _ _ _ _ Hk' H2) in Hinv. lia. }
  intros Hj Hk H1 H2.
  destruct (Nat.lt_trichotomy j k) as [?|[?|?]]; [|done|]; exfalso; eauto.
Qed.

Lemma bookedSlotIds_insert bs k b b' :
  bs !! k = Some b → Booking.slotId b' = Booking.slotId b →
  (Booking.status b' ≠ denied ↔ Booking.status b ≠ denied) →
  bookedSlotIds (<[k := b']> bs) = bookedSlotIds bs.
Proof.
  unfold bookedSlotIds. revert k.
  induction bs as [|x bs IH]; intros [|k] Hk Hslot Hst; simplify_eq/=.
  - rewrite !filter_cons. repeat case_decide; try tauto; simpl; by rewrite ?Hslot.
  - rewrite !filter_cons. case_decide; simpl; by rewrite IH.
Qed.

(** X8. Approving a booking that is not denied changes no availability flag;
    neither does denying one that is denied already. *)
Theorem updateBookingStatus_same_side_same_flags bookingId status st i b :
  first_with_id (bookings st) bookingId i b →
  (Booking.status b = denied ↔ status = to_denied) →
  (getAvailableSlots (updateBookingStatus bookingId status st).2).1
  = (getAvailableSlots st).1.
Proof.
  intros Hfirst Hside.
  rewrite (updateBookingStatus_found _ _ _ _ _ Hfirst). cbn [snd].
  unfold getAvailableSlots; simpl.
  rewrite (bookedSlotIds_insert _ _ b); [done|apply Hfirst|done|].
  simpl. destruct status; simpl; naive_solver.
Qed.

Lemma updateBookingStatus_same_side_same_flags_witness :
  (getAvailableSlots
     (updateBookingStatus (bookingId sampleEnv) to_approved bookedStore).2).1
  = (getAvailableSlots bookedStore).1.
Proof.
  refine (updateBookingStatus_same_side_same_flags (bookingId sampleEnv) to_approved
            bookedStore 0%nat
            (Booking.mk "booking-1704067200000-k3x9q2m1z" "2024-01-01-09:00" "Ann"
               "ann@example.org" "checkup" pending "2024-01-01" "09:00"
               "2024-01-01T00:00:00.000Z") _ _).
  - split_and!; [reflexivity|reflexivity|]. intros j b' Hj Hlt. lia.
  - split; discriminate.
Defined.

(** X9. In a store that keeps the invariant, denying the booking that holds a
    slot gives the slot back: the query then reports the slot available
    unless a blocking rule names it, and reports every other slot as
    before. *)
Theorem deny_releases_the_slot bookingId st k b :
  no_double_booking st →
  first_with_id (bookings st) bookingId k b →
  Booking.status b ≠ denied →
  let st' := (updateBookingStatus bookingId to_denied st).2 in
  ∀ i slot, slots st !! i = Some slot →
    (TimeSlot.id slot = Booking.slotId b →
     (flag_at st' i = Some true ↔ ¬ slot_blocked st (TimeSlot.id slot)))
    ∧ (TimeSlot.id slot ≠ Booking.slotId b → flag_at st' i = flag_at st i).
Proof.
  intros Hinv Hfirst Hlive st' i slot Hi. subst st'.
  rewrite (updateBookingStatus_found _ _ _ _ _ Hfirst). cbn [snd Decision_status].
  set (st' := mkService _ _ _).
  assert (∀ s, slot_taken st' s ↔
               ∃ j b', j ≠ k ∧ bookings st !! j = Some b' ∧ live_on s b') as Htaken.
  { intros s. unfold slot_taken, st'; simpl. split.
    - intros (b' & [j Hj]%list_elem_of_lookup_1 & Hl).
      apply list_lookup_insert_Some in Hj as [(-> & <- & _) | [Hne Hj]].
      + by destruct Hl as [_ []].
      + eauto.
    - intros (j & b' & Hne & Hj & Hl). exists b'. split; [|done].
      apply list_elem_of_lookup_2 with j. by rewrite list_lookup_insert_ne. }
  split.
  - intros Hid.
    rewrite (flag_at_true st' i slot Hi), Htaken. split; [tauto|].
    intros Hopen. split; [|done].
    intros (j & b' & Hne & Hj & Hl). apply Hne.
    apply (no_double_booking_unique st (TimeSlot.id slot) j k b' b Hinv Hj
             (proj1 Hfirst) Hl).
    by split.
  - intros Hne. symmetry. apply (flag_at_agree st st' i slot Hi Hi).
    rewrite Htaken. unfold slot_taken.
    assert ((∃ b', b' ∈ bookings st ∧ live_on (TimeSlot.id slot) b')
            ↔ ∃ j b', j ≠ k ∧ bookings st !! j = Some b'
                      ∧ live_on (TimeSlot.id slot) b') as ->; [|done].
    split.
    + intros (b' & [j Hj]%list_elem_of_lookup_1 & Hl). exists j, b'.
      split_and!; try done. intros ->.
      destruct Hfirst as (Hk & _). destruct Hl as [Hs _]. congruence.
    + intros (j & b' & _ & Hj & Hl). eauto using list_elem_of_lookup_2.
Qed.

Lemma deny_releases_the_slot_witness :
  flag_at (updateBookingStatus (bookingId sampleEnv) to_denied bookedStore).2 0
  = Some true.
Proof.
  refine (proj2 (proj1 (deny_releases_the_slot (bookingId sampleEnv) bookedStore 0%nat
            (Booking.mk "booking-1704067200000-k3x9q2m1z" "2024-01-01-09:00" "Ann"
               "ann@example.org" "checkup" pending "2024-01-01" "09:00"
               "2024-01-01T00:00:00.000Z") _ _ _
            0%nat (TimeSlot.mk "2024-01-01-09:00" "2024-01-01" "09:00" true) _) _) _).
  - exact (createBooking_no_double_booking sampleEnv sampleRequest sampleStore
             (newService_no_double_booking sampleEnv)).
  - split_and!; [reflexivity|reflexivity|]. intros j b' Hj Hlt. lia.
  - discriminate.
  - reflexivity.
  - reflexivity.
  - intros (rule & Hin & _). vm_compute in Hin. by apply elem_of_nil in Hin.
Defined.

(** ** Availability rules and the query *)

(** X10. What the query reports after [setAvailability]: a slot is unavailable
    exactly when a live booking holds it, or the new rule blocks and one of
    its times, appended to its date, spells the slot id, or a blocking rule
    of another date names it. Whatever the replaced rule of that date
    blocked is no longer blocked. *)
Theorem setAvailability_then_query e data st i slot :
  slots st !! i = Some slot →
  flag_at (setAvailability e data st).2 i = Some false
  ↔ slot_taken st (TimeSlot.id slot)
    ∨ (RuleData.isBlocked data = true
       ∧ ∃ time, time ∈ RuleData.timeSlots data
                 ∧ TimeSlot.id slot = ruleSlotId (RuleData.date data) time)
    ∨ (∃ rule, rule ∈ availabilityRules st
               ∧ AvailabilityRule.date rule ≠ RuleData.date data
               ∧ rule_blocks (TimeSlot.id slot) rule).
Proof.
  intros Hi.
  rewrite (flag_at_false (setAvailability e data st).2 i slot Hi).
  unfold slot_taken, slot_blocked, rule_blocks; simpl.
  setoid_rewrite elem_of_app. setoid_rewrite list_elem_of_singleton.
  setoid_rewrite list_elem_of_filter.
  split.
  - intros [Ht | (rule & [[Hne Hin] | ->] & Hb & Htime)]; [by left| |].
    + right; right. exists rule. eauto.
    + right; left. simpl in *. split; [by apply Is_true_true|done].
  - intros [Ht | [[Hb Htime] | (rule & Hin & Hne & Hb)]]; [by left| |].
    + right. eexists. split; [by right|]. simpl. split; [by apply Is_true_true|done].
    + right. exists rule. eauto.
Qed.

Lemma setAvailability_then_query_witness :
  flag_at blockedStore 1 = Some false.
Proof.
  refine (proj2 (setAvailability_then_query sampleEnv
            (RuleData.mk "2024-01-01" ["09:00"; "09:30"] true None) sampleStore 1%nat
            (TimeSlot.mk "2024-01-01-09:30" "2024-01-01" "09:30" true) _) _).
  - reflexivity.
  - right; left. split; [reflexivity|].
    exists "09:30". split; [|reflexivity]. right. left.
Defined.

(** ** Slot generation, for every clock and zone *)

(** New York in 2024: five hours west of Greenwich, and four from 10 March,
    07:00 UTC, to 3 November, 06:00 UTC. *)
Definition newYork2024 : JSDate.TimeZone :=
  JSDate.zoneOf (-18000000) [(1710054000000, -14400000); (1730613600000, -18000000)].

(** Sunday 2024-03-10 at 19:30 in New York, the day the clocks went
    forward. *)
Definition springForwardEnv : Env := mkEnv 1710113400000 newYork2024 "k3x9q2m1z".

(** Wednesday 2024-01-17 at noon in New York. *)
Definition winterNoonEnv : Env := mkEnv 1705510800000 newYork2024 "k3x9q2m1z".

Lemma fixedOffset_steady n offset r :
  - JSDate.msPerDay ≤ offset ≤ JSDate.msPerDay →
  offset_steady (mkEnv n (JSDate.fixedOffset offset) r) offset.
Proof. intros Hbound. split; [exact Hbound|]. by intros t isUTC _. Qed.

(** X11. [getStartOfWeek] returns the instant at which the local clock shows
    the Monday of the current local week (none to six days back, six on a
    Sunday) at the present local time of day, the local time being read
    back with the offset the zone gives it. That is a whole number of days
    before now, corrected by the difference between the offset now and the
    offset then. Where the offset in force at the result is the one the
    local Monday was read with, the result is a Monday of the local
    calendar at the same local time of day; with a steady offset it is
    exactly the whole days before now. *)
Theorem getStartOfWeek_local_week_start e :
  let day := JSDate.getDay (tza e) (now e) in
  let start := getStartOfWeek e in
  0 ≤ day ≤ 6
  ∧ daysSinceMonday e = (if bool_decide (day = 0) then 6 else day - 1)
  ∧ start = JSDate.UTC (tza e) (localMonday e)
  ∧ JSDate.WeekDay (localMonday e) = 1
  ∧ JSDate.TimeWithinDay (localMonday e)
    = JSDate.TimeWithinDay (JSDate.LocalTime (tza e) (now e))
  ∧ start = now e - daysSinceMonday e * JSDate.msPerDay
            + (tza e (now e) true - tza e (localMonday e) false)
  ∧ (tza e start true = tza e (localMonday e) false →
     JSDate.LocalTime (tza e) start = localMonday e
     ∧ JSDate.getDay (tza e) start = 1)
  ∧ (∀ offset, offset_steady e offset →
       start = now e - daysSinceMonday e * JSDate.msPerDay
       ∧ JSDate.TimeWithinDay start = JSDate.TimeWithinDay (now e)
       ∧ JSDate.getDay (tza e) start = 1).
Proof.
  cbv zeta. pose proof (getDay_range (tza e) (now e)) as Hday.
  split_and!.
  - lia.
  - lia.
  - unfold daysSinceMonday.
    case_bool_decide; Z.to_euclidean_division_equations; lia.
  - apply getStartOfWeek_local.
  - apply localMonday_WeekDay.
  - apply localMonday_TimeWithinDay.
  - rewrite getStartOfWeek_local. unfold JSDate.UTC, localMonday, JSDate.LocalTime. lia.
  - intros Hsame.
    assert (JSDate.LocalTime (tza e) (getStartOfWeek e) = localMonday e) as Hlocal.
    { unfold JSDate.LocalTime at 1. rewrite Hsame.
      rewrite getStartOfWeek_local. unfold JSDate.UTC. lia. }
    split; [exact Hlocal|].
    unfold JSDate.getDay. rewrite Hlocal. apply localMonday_WeekDay.
  - intros offset Hsteady.
    pose proof (getStartOfWeek_days_back e offset Hsteady) as Hstart.
    split_and!.
    + exact Hstart.
    + rewrite Hstart. unfold JSDate.TimeWithinDay.
      set (k := daysSinceMonday e).
      replace (now e - k * JSDate.msPerDay)
        with (now e + (- k) * JSDate.msPerDay) by lia.
      by apply Z.mod_add.
    + by eapply getStartOfWeek_local_monday.
Qed.

Lemma getStartOfWeek_local_week_start_witness :
  JSDate.LocalTime (tza springForwardEnv) (getStartOfWeek springForwardEnv)
  = localMonday springForwardEnv
  ∧ JSDate.getDay (tza springForwardEnv) (getStartOfWeek springForwardEnv) = 1.
Proof.
  refine (proj1 (proj2 (proj2 (proj2 (proj2 (proj2 (proj2
            (getStartOfWeek_local_week_start springForwardEnv))))))) _).
  vm_compute. reflexivity.
Defined.

(** X12. Whatever the clock and the zone, the generator produces eighty slots:
    for each of five time values the sixteen half-hour times from 09:00 to
    16:30 in order, each slot dated with the UTC date of its time value,
    identified by that date, a hyphen and the time, and flagged available.
    The five time values are the local time of the start of the week and
    of the four local days after it, each read back as an instant with the
    offset the zone gives it; with a steady offset they are the start of
    the week and the four instants twenty-four hours apart after it. *)
Theorem generateWeeklySlots_grid e :
  length (generateWeeklySlots e) = 80%nat
  ∧ TimeSlot.time <$> generateWeeklySlots e
    = gridTimes ++ gridTimes ++ gridTimes ++ gridTimes ++ gridTimes
  ∧ TimeSlot.date <$> generateWeeklySlots e
    = (t ← slotInstants e; replicate 16 (JSDate.isoDate t))
  ∧ slotInstants e
    = (λ day, JSDate.UTC (tza e)
                (JSDate.LocalTime (tza e) (getStartOfWeek e) + day * JSDate.msPerDay))
      <$> [0; 1; 2; 3; 4]
  ∧ (∀ offset, offset_steady e offset →
       slotInstants e
       = (λ day, getStartOfWeek e + day * JSDate.msPerDay) <$> [0; 1; 2; 3; 4])
  ∧ ∀ slot, slot ∈ generateWeeklySlots e →
      TimeSlot.id slot = TimeSlot.date slot +:+ "-" +:+ TimeSlot.time slot
      ∧ TimeSlot.available slot = true
      ∧ TimeSlot.time slot ∈ gridTimes.
Proof.
  split_and!.
  - rewrite <-(length_fmap TimeSlot.time), generateWeeklySlots_times. reflexivity.
  - apply generateWeeklySlots_times.
  - apply generateWeeklySlots_dates.
  - apply slotInstants_local.
  - apply slotInstants_days.
  - intros slot Hin.
    destruct (generateWeeklySlots_shape e slot Hin) as [Hid Havail].
    split_and!; [exact Hid|exact Havail|by eapply generateWeeklySlots_time_in_grid].
Qed.

Lemma generateWeeklySlots_grid_witness :
  slotInstants winterNoonEnv
  = (λ day, getStartOfWeek winterNoonEnv + day * JSDate.msPerDay) <$> [0; 1; 2; 3; 4].
Proof.
  refine (proj1 (proj2 (proj2 (proj2 (proj2
            (generateWeeklySlots_grid winterNoonEnv))))) (-18000000) _).
  split; [unfold JSDate.msPerDay; lia|].
  intros t isUTC Ht. unfold JSDate.msPerDay in Ht. simpl in Ht.
  unfold winterNoonEnv, newYork2024; simpl.
  destruct isUTC; repeat case_bool_decide; lia.
Defined.


(** ** CSV export: when a record reads back *)

Lemma includes_cons_false c s sub :
  includes (String c s) sub = false → includes s sub = false.
Proof. simpl. by intros [_ ?]%orb_false_iff. Qed.

Lemma escapeQuotes_quote_free field :
  includes field dquote = false → escapeQuotes field = field.
Proof.
  induction field as [|c field IH]; [done|]. intros Hfree.
  simpl. case_bool_decide as Hc.
  - subst c. exfalso. unfold dquote in Hfree. simpl in Hfree.
    by destruct field.
  - f_equal. apply IH. by eapply includes_cons_false.
Qed.

Lemma csvLine_quote_free row :
  Forall (λ field, includes field dquote = false) row →
  csvLine row = spec_csvLine row.
Proof.
  intros Hfree. unfold csvLine, spec_csvLine.
  assert (csvField <$> row = spec_csvField <$> row) as ->; [|done].
  apply list_fmap_ext. intros i field Hi.
  unfold csvField, spec_csvField.
  rewrite escapeQuotes_quote_free; [done|].
  by apply (Forall_lookup_1 _ _ _ _ Hfree Hi).
Qed.

(** X15. The export leaves the store alone and writes the header record first.
    The header reads back by the standard quoting rule, and so does the
    record of every booking none of whose fields contains a double quote;
    with no bookings the export is the header record alone. *)
Theorem exportBookingsCSV_reads_back (toLocaleString : string → string) st :
  (exportBookingsCSV toLocaleString st).2 = st
  ∧ parseRecord (csvLine csvHeaders) = Some csvHeaders
  ∧ (bookings st = [] →
     (exportBookingsCSV toLocaleString st).1 = csvLine csvHeaders)
  ∧ (∀ b, b ∈ bookings st →
       Forall (λ field, includes field dquote = false) (csvRow toLocaleString b) →
       parseRecord (csvLine (csvRow toLocaleString b)) = Some (csvRow toLocaleString b)).
Proof.
  split_and!.
  - done.
  - reflexivity.
  - unfold exportBookingsCSV. by intros ->.
  - intros b _ Hfree. rewrite csvLine_quote_free by done.
    by apply parseRecord_spec_csvLine.
Qed.

Lemma exportBookingsCSV_reads_back_witness :
  parseRecord (csvLine (csvRow (λ s, s)
    (Booking.mk "booking-1704067200000-k3x9q2m1z" "2024-01-01-09:00" "Ann"
       "ann@example.org" "checkup" pending "2024-01-01" "09:00"
       "2024-01-01T00:00:00.000Z")))
  = Some (csvRow (λ s, s)
    (Booking.mk "booking-1704067200000-k3x9q2m1z" "2024-01-01-09:00" "Ann"
       "ann@example.org" "checkup" pending "2024-01-01" "09:00"
       "2024-01-01T00:00:00.000Z")).
Proof.
  refine (proj2 (proj2 (proj2 (exportBookingsCSV_reads_back (λ s, s) bookedStore))) _ _ _).
  - vm_compute. apply list_elem_of_here.
  - vm_compute. repeat constructor.
Defined.

(** ** The sorted listings *)

(** [Array.prototype.sort] with a comparator: the sort is stable, so for a
    comparator that orders the elements the result is the one a stable
    insertion sort gives. An element goes before the first element it does
    not compare greater than. *)
Fixpoint insertSorted {A} (compare : A → A → Z) (x : A) (l : list A) : list A :=
  match l with
  | [] => [x]
  | y :: l' =>
    if bool_decide (compare x y ≤ 0) then x :: y :: l'
    else y :: insertSorted compare x l'
  end.

Definition sortArray {A} (compare : A → A → Z) (l : list A) : list A :=
  foldr (insertSorted compare) [] l.

(** The difference of two time values as the sort reads it: a comparator
    result that is not a number counts as zero. *)
Definition timeDifference (a b : option Z) : Z :=
  match a, b with
  | Some x, Some y => x - y
  | _, _ => 0
  end.

Section Listings.
(** [new Date(text).getTime()]: the time value of a text that is a date,
    and no number otherwise. *)
Variable getTime : string → option Z.

(** [[...this.bookings].sort((a, b) => time(b.createdAt) - time(a.createdAt))] *)
Definition getAllBookings (st : AppointmentService)
  : list Booking.t * AppointmentService :=
  (sortArray (λ a b, timeDifference (getTime (Booking.createdAt b))
                                    (getTime (Booking.createdAt a)))
             (bookings st),
   st).

(** [[...this.availabilityRules].sort((a, b) => time(a.date) - time(b.date))] *)
Definition getAvailabilityRules (st : AppointmentService)
  : list AvailabilityRule.t * AppointmentService :=
  (sortArray (λ a b, timeDifference (getTime (AvailabilityRule.date a))
                                    (getTime (AvailabilityRule.date b)))
             (availabilityRules st),
   st).
End Listings.

Lemma insertSorted_Permutation {A} (compare : A → A → Z) x l :
  insertSorted compare x l ≡ₚ x :: l.
Proof.
  induction l as [|y l IH]; simpl; [done|].
  case_bool_decide; [done|]. rewrite IH. apply Permutation_swap.
Qed.

Lemma sortArray_Permutation {A} (compare : A → A → Z) l :
  sortArray compare l ≡ₚ l.
Proof.
  induction l as [|x l IH]; simpl; [done|].
  by rewrite insertSorted_Permutation, IH.
Qed.

Lemma insertSorted_ext {A} (compare compare' : A → A → Z) x l :
  (∀ y, y ∈ l → compare x y = compare' x y) →
  insertSorted compare x l = insertSorted compare' x l.
Proof.
  induction l as [|y l IH]; intros Hext; simpl; [done|].
  rewrite Hext by left. rewrite IH; [done|].
  intros z Hz. apply Hext. by right.
Qed.

Lemma sortArray_ext {A} (compare compare' : A → A → Z) l :
  (∀ a b, a ∈ l → b ∈ l → compare a b = compare' a b) →
  sortArray compare l = sortArray compare' l.
Proof.
  induction l as [|x l IH]; intros Hext; simpl; [done|].
  rewrite IH by (intros a b Ha Hb; apply Hext; by right).
  apply insertSorted_ext. intros y Hy. apply Hext; [left|right].
  by rewrite sortArray_Permutation in Hy.
Qed.

(** Sorting by a numeric key, ascending when [sign] is 1 and descending
    when it is -1. *)
Lemma insertSorted_by_key {A} (key : A → Z) (sign : Z) x l :
  sign = 1 ∨ sign = -1 →
  StronglySorted (λ a b, sign * key a ≤ sign * key b) l →
  StronglySorted (λ a b, sign * key a ≤ sign * key b)
    (insertSorted (λ a b, sign * (key a - key b)) x l).
Proof.
  intros Hsign. induction 1 as [|y l Hl IH Hy]; simpl.
  - repeat constructor.
  - case_bool_decide as Hxy.
    + constructor; [by constructor|].
      constructor; [lia|].
      eapply Forall_impl; [exact Hy|]. simpl. intros z Hz. lia.
    + constructor; [done|].
      rewrite insertSorted_Permutation. constructor; [lia|done].
Qed.

Lemma sortArray_by_key {A} (key : A → Z) (sign : Z) l :
  sign = 1 ∨ sign = -1 →
  StronglySorted (λ a b, sign * key a ≤ sign * key b)
    (sortArray (λ a b, sign * (key a - key b)) l).
Proof.
  intros Hsign. induction l as [|x l IH]; simpl; [constructor|].
  by apply insertSorted_by_key.
Qed.

(** A list already in order is returned as it is: the sort is stable. *)
Lemma sortArray_sorted_id {A} (compare : A → A → Z) l :
  StronglySorted (λ a b, compare a b ≤ 0) l → sortArray compare l = l.
Proof.
  induction 1 as [|x l Hl IH Hx]; simpl; [done|].
  rewrite IH. destruct l as [|y l]; simpl; [done|].
  apply Forall_cons in Hx as [Hxy _]. by rewrite bool_decide_eq_true_2.
Qed.

(** One text is a date no later than another. *)
Definition no_later (getTime : string → option Z) (a b : string) : Prop :=
  ∃ ta tb, getTime a = Some ta ∧ getTime b = Some tb ∧ ta ≤ tb.

Lemma StronglySorted_in {A} (R R' : A → A → Prop) l :
  (∀ a b, a ∈ l → b ∈ l → R a b → R' a b) →
  StronglySorted R l → StronglySorted R' l.
Proof.
  intros Himp. induction 1 as [|x l Hl IH Hx]; constructor.
  - apply IH. intros a b Ha Hb. apply Himp; by right.
  - apply Forall_forall. intros y Hy. apply Himp; [left|by right|].
    by eapply Forall_forall in Hx.
Qed.

(** Sorting texts that are all dates, by their time values. *)
Lemma sortArray_by_time {A} (getTime : string → option Z) (text : A → string)
    (sign : Z) (l : list A) :
  sign = 1 ∨ sign = -1 →
  Forall (λ a, is_Some (getTime (text a))) l →
  let sorted :=
    sortArray (λ a b, if bool_decide (sign = 1)
                      then timeDifference (getTime (text a)) (getTime (text b))
                      else timeDifference (getTime (text b)) (getTime (text a))) l in
  StronglySorted (λ a b, if bool_decide (sign = 1)
                         then no_later getTime (text a) (text b)
                         else no_later getTime (text b) (text a)) sorted.
Proof.
  intros Hsign Hall sorted. rewrite Forall_forall in Hall.
  set (key := λ a, default 0 (getTime (text a))).
  assert (sorted = sortArray (λ a b, sign * (key a - key b)) l) as ->.
  { apply sortArray_ext. intros a b Ha Hb.
    destruct (Hall a Ha) as [ta Hta], (Hall b Hb) as [tb Htb].
    unfold key. rewrite Hta, Htb. simpl.
    destruct Hsign as [-> | ->]; simpl; lia. }
  eapply StronglySorted_in; [|by apply (sortArray_by_key key sign)].
  intros a b Ha Hb Hle. rewrite sortArray_Permutation in Ha, Hb.
  destruct (Hall a Ha) as [ta Hta], (Hall b Hb) as [tb Htb].
  unfold key in Hle. rewrite Hta, Htb in Hle. simpl in Hle.
  destruct Hsign as [-> | ->]; simpl; unfold no_later.
  - exists ta, tb. split_and!; try done. lia.
  - exists tb, ta. split_and!; try done. lia.
Qed.

(** X16. [getAllBookings] returns every booking of the store exactly once and
    leaves the store in its own order. When every creation time is a date,
    the most recently created booking comes first: each booking was
    created no earlier than every booking after it. *)
Theorem getAllBookings_newest_first (getTime : string → option Z) st :
  (getAllBookings getTime st).2 = st
  ∧ (getAllBookings getTime st).1 ≡ₚ bookings st
  ∧ (Forall (λ b, is_Some (getTime (Booking.createdAt b))) (bookings st) →
     StronglySorted
       (λ a b, no_later getTime (Booking.createdAt b) (Booking.createdAt a))
       (getAllBookings getTime st).1).
Proof.
  split_and!; [done|apply sortArray_Permutation|].
  intros Hall.
  exact (sortArray_by_time getTime Booking.createdAt (-1) (bookings st)
           (or_intror eq_refl) Hall).
Qed.

(** [new Date(text).getTime()] on the texts the sample stores hold: three
    creation times and three rule dates, a date alone being read as
    midnight UTC. *)
Definition sampleTimeValue (text : string) : option Z :=
  if bool_decide (text = "2024-01-01T00:00:00.000Z") then Some 1704067200000
  else if bool_decide (text = "2024-01-01T00:30:00.000Z") then Some 1704069000000
  else if bool_decide (text = "2024-01-01T01:00:00.000Z") then Some 1704070800000
  else if bool_decide (text = "2024-01-01") then Some 1704067200000
  else if bool_decide (text = "2024-01-02") then Some 1704153600000
  else if bool_decide (text = "2024-01-03") then Some 1704240000000
  else None.

(** Half past midnight on 2024-01-01, UTC. *)
Definition halfPastEnv : Env := mkEnv 1704069000000 (JSDate.fixedOffset 0) "a1b2c3d4e".

(** Three bookings, stored in the order of the calls: Ann's at midnight,
    Bob's at one o'clock and Eve's at half past midnight. *)
Definition threeBookingsStore : AppointmentService :=
  run [call_createBooking sampleEnv sampleRequest;
       call_createBooking laterEnv
         (BookingData.mk "2024-01-01-09:30" "Bob" "bob@example.org" "follow-up");
       call_createBooking halfPastEnv
         (BookingData.mk "2024-01-01-10:00" "Eve" "eve@example.org" "x-ray")]
      sampleStore.

Lemma getAllBookings_newest_first_witness :
  StronglySorted
    (λ a b, no_later sampleTimeValue (Booking.createdAt b) (Booking.createdAt a))
    (getAllBookings sampleTimeValue threeBookingsStore).1
  ∧ Booking.name <$> bookings threeBookingsStore = ["Ann"; "Bob"; "Eve"]
  ∧ Booking.name <$> (getAllBookings sampleTimeValue threeBookingsStore).1
    = ["Bob"; "Eve"; "Ann"].
Proof.
  split; [|split; vm_compute; reflexivity].
  refine (proj2 (proj2 (getAllBookings_newest_first sampleTimeValue
                          threeBookingsStore)) _).
  vm_compute. repeat constructor; by eexists.
Defined.

(** X17. [getAvailabilityRules] returns every rule of the store exactly once and
    leaves the store in its own order. When every rule date is a date, the
    rules come in ascending order of date, and rules already stored in that
    order come back in the stored order. *)
Theorem getAvailabilityRules_by_date (getTime : string → option Z) st :
  (getAvailabilityRules getTime st).2 = st
  ∧ (getAvailabilityRules getTime st).1 ≡ₚ availabilityRules st
  ∧ (Forall (λ r, is_Some (getTime (AvailabilityRule.date r))) (availabilityRules st) →
     StronglySorted
       (λ a b, no_later getTime (AvailabilityRule.date a) (AvailabilityRule.date b))
       (getAvailabilityRules getTime st).1)
  ∧ (StronglySorted
       (λ a b, no_later getTime (AvailabilityRule.date a) (AvailabilityRule.date b))
       (availabilityRules st) →
     (getAvailabilityRules getTime st).1 = availabilityRules st).
Proof.
  split_and!; [done|apply sortArray_Permutation| |].
  - intros Hall.
    exact (sortArray_by_time getTime AvailabilityRule.date 1 (availabilityRules st)
             (or_introl eq_refl) Hall).
  - intros Hsorted. unfold getAvailabilityRules; simpl.
    apply sortArray_sorted_id.
    eapply StronglySorted_in; [|exact Hsorted].
    intros a b _ _ (ta & tb & -> & -> & Hle). simpl. lia.
Qed.

Lemma getAvailabilityRules_by_date_witness :
  StronglySorted
    (λ a b, no_later sampleTimeValue (AvailabilityRule.date a) (AvailabilityRule.date b))
    (getAvailabilityRules sampleTimeValue threeRulesStore).1
  ∧ AvailabilityRule.date <$> availabilityRules threeRulesStore
    = ["2024-01-03"; "2024-01-02"; "2024-01-01"]
  ∧ AvailabilityRule.date <$> (getAvailabilityRules sampleTimeValue threeRulesStore).1
    = ["2024-01-01"; "2024-01-02"; "2024-01-03"].
Proof.
  split; [|split; vm_compute; reflexivity].
  refine (proj1 (proj2 (proj2 (getAvailabilityRules_by_date sampleTimeValue
                                 threeRulesStore))) _).
  vm_compute. repeat constructor; by eexists.
Defined.

(** ** Reading the generated dates back *)

(** The day number a [YYYY-MM-DD] text denotes. *)
Definition dateDayNumber (date : string) : option Z :=
  if bool_decide (String.length date = 10%nat
                  ∧ String.get 4 date = Some "-"%char
                  ∧ String.get 7 date = Some "-"%char)
  then
    match parseDigits 0 (String.substring 0 4 date),
          parseDigits 0 (String.substring 5 2 date),
          parseDigits 0 (String.substring 8 2 date) with
    | Some y, Some m, Some d => Some (dayFromCivil y m d)
    | _, _, _ => None
    end
  else None.

Lemma dateWeekDay_dayNumber date :
  dateWeekDay date = (λ d, (d + 4) `mod` 7) <$> dateDayNumber date.
Proof.
  unfold dateWeekDay, dateDayNumber.
  case_bool_decide; [|done]. by repeat case_match.
Qed.

(** The calendar computation is inverted by [dayFromCivil]. *)
Lemma civil_range d :
  1 ≤ (JSDate.civil d).1.2 ≤ 12 ∧ 1 ≤ (JSDate.civil d).2 ≤ 31.
Proof.
  unfold JSDate.civil. cbv zeta. simpl fst. simpl snd.
  set (z := d + 719468).
  set (era := z `div` 146097).
  set (doe := z - era * 146097).
  assert (0 ≤ doe < 146097) as Hdoe.
  { subst doe era. Z.to_euclidean_division_equations; lia. }
  clearbody doe.
  set (yoe := (doe - doe `div` 1460 + doe `div` 36524 - doe `div` 146096) `div` 365).
  set (doy := doe - (365 * yoe + yoe `div` 4 - yoe `div` 100)).
  assert (0 ≤ doy ≤ 365) as Hdoy.
  { subst doy yoe. Z.to_euclidean_division_equations; lia. }
  clearbody doy.
  destruct (Z.ltb_spec ((5 * doy + 2) `div` 153) 10);
    Z.to_euclidean_division_equations; lia.
Qed.

Lemma dayFromCivil_civil d :
  dayFromCivil (JSDate.civil d).1.1 (JSDate.civil d).1.2 (JSDate.civil d).2 = d.
Proof.
  unfold JSDate.civil, dayFromCivil. cbv zeta. simpl fst. simpl snd.
  set (z := d + 719468).
  set (era := z `div` 146097).
  set (doe := z - era * 146097).
  assert (0 ≤ doe < 146097) as Hdoe.
  { subst doe era. Z.to_euclidean_division_equations; lia. }
  assert (d = era * 146097 + doe - 719468) as Hd by (subst doe z; lia).
  clearbody doe era. clear z.
  set (yoe := (doe - doe `div` 1460 + doe `div` 36524 - doe `div` 146096) `div` 365).
  assert (0 ≤ yoe ≤ 399) as Hyoe.
  { subst yoe. Z.to_euclidean_division_equations; lia. }
  set (doy := doe - (365 * yoe + yoe `div` 4 - yoe `div` 100)).
  assert (0 ≤ doy ≤ 365) as Hdoy.
  { subst doy yoe. Z.to_euclidean_division_equations; lia. }
  assert (doe = yoe * 365 + yoe `div` 4 - yoe `div` 100 + doy) as Hdoe'
    by (subst doy; lia).
  clearbody doy. clearbody yoe.
  set (mp := (5 * doy + 2) `div` 153).
  assert (0 ≤ mp ≤ 11) as Hmp.
  { subst mp. Z.to_euclidean_division_equations; lia. }
  clearbody mp.
  assert ((yoe + era * 400) `div` 400 = era) as Hera
    by (Z.to_euclidean_division_equations; lia).
  destruct (Z.ltb_spec mp 10) as [Hlt|Hge].
  - destruct (Z.leb_spec (mp + 3) 2) as [?|_]; [lia|].
    rewrite Z.add_0_r, Hera.
    replace ((mp + 3 + 9) `mod` 12) with mp
      by (Z.to_euclidean_division_equations; lia).
    replace (yoe + era * 400 - era * 400) with yoe by lia. lia.
  - destruct (Z.leb_spec (mp - 9) 2) as [_|?]; [|lia].
    replace (yoe + era * 400 + 1 - 1) with (yoe + era * 400) by lia.
    rewrite Hera.
    replace ((mp - 9 + 9) `mod` 12) with mp
      by (Z.to_euclidean_division_equations; lia).
    replace (yoe + era * 400 - era * 400) with yoe by lia. lia.
Qed.

(** The years 0 to 9999 are the days from 0000-01-01 to 9999-12-31. *)
Lemma civil_year_range d :
  -719528 ≤ d ≤ 2932896 → 0 ≤ (JSDate.civil d).1.1 ≤ 9999.
Proof.
  intros Hd. unfold JSDate.civil. cbv zeta. simpl fst. simpl snd.
  set (z := d + 719468).
  set (era := z `div` 146097).
  set (doe := z - era * 146097).
  assert (0 ≤ doe < 146097) as Hdoe.
  { subst doe era. Z.to_euclidean_division_equations; lia. }
  assert (-1 ≤ era ≤ 24) as Hera.
  { subst era z. Z.to_euclidean_division_equations; lia. }
  assert (z = era * 146097 + doe) as Hz by (subst doe; lia).
  assert (-60 ≤ z ≤ 3652364) as Hzr by (subst z; lia).
  clearbody doe era z.
  set (yoe := (doe - doe `div` 1460 + doe `div` 36524 - doe `div` 146096) `div` 365).
  set (doy := doe - (365 * yoe + yoe `div` 4 - yoe `div` 100)).
  assert (0 ≤ yoe ≤ 399) as Hyoe.
  { subst yoe. Z.to_euclidean_division_equations; lia. }
  assert (0 ≤ doy ≤ 365) as Hdoy.
  { subst doy yoe. Z.to_euclidean_division_equations; lia. }
  assert (doe = 365 * yoe + yoe `div` 4 - yoe `div` 100 + doy) as Hdoe'
    by (subst doy; lia).
  clearbody doy. clearbody yoe.
  destruct (Z.ltb_spec ((5 * doy + 2) `div` 153) 10) as [Hlt|Hge].
  - destruct (Z.leb_spec ((5 * doy + 2) `div` 153 + 3) 2);
      Z.to_euclidean_division_equations; lia.
  - destruct (Z.leb_spec ((5 * doy + 2) `div` 153 - 9) 2);
      Z.to_euclidean_division_equations; lia.
Qed.

(** Decimal numerals read back. *)
Lemma digitValue_pretty_N_char (r : N) :
  (r < 10)%N → digitValue (pretty_N_char r) = Some (Z.of_N r).
Proof.
  intros Hr.
  assert (r = 0 ∨ r = 1 ∨ r = 2 ∨ r = 3 ∨ r = 4 ∨ r = 5 ∨ r = 6 ∨ r = 7
          ∨ r = 8 ∨ r = 9)%N as Hcases by lia.
  destruct_or!; subst r; reflexivity.
Qed.

Lemma parseDigits_pretty_N_go (x : N) (s : string) :
  parseDigits 0 (pretty_N_go x s) = parseDigits (Z.of_N x) s.
Proof.
  revert s. induction (N.lt_wf_0 x) as [x _ IH]; intros s.
  destruct (decide (x = 0)%N) as [->|Hx]; [done|].
  rewrite pretty_N_go_step by lia.
  rewrite IH by (apply N.div_lt; lia).
  simpl. rewrite digitValue_pretty_N_char by (apply N.mod_lt; lia).
  f_equal. rewrite (N.div_mod x 10) at 3 by lia. lia.
Qed.

Lemma parseDigits_pretty (n : Z) : 0 ≤ n → parseDigits 0 (pretty n) = Some n.
Proof.
  intros Hn. destruct n as [|p|p]; [done| |lia].
  unfold pretty, pretty_Z, pretty, pretty_positive, pretty, pretty_N.
  case_decide; [done|]. by rewrite parseDigits_pretty_N_go.
Qed.

Lemma parseDigits_zeros k s : parseDigits 0 (JSDate.zeros k +:+ s) = parseDigits 0 s.
Proof. induction k as [|k IH]; [done|]. simpl. exact IH. Qed.

Lemma parseDigits_padStart0 w (n : Z) :
  0 ≤ n → parseDigits 0 (JSDate.padStart0 w (pretty n)) = Some n.
Proof.
  intros Hn. unfold JSDate.padStart0. by rewrite parseDigits_zeros, parseDigits_pretty.
Qed.

(** The length of a decimal numeral. *)
Lemma length_pretty_N_go (k : nat) (x : N) (s : string) :
  (x < 10 ^ N.of_nat k)%N →
  (String.length (pretty_N_go x s) ≤ k + String.length s)%nat.
Proof.
  revert x s. induction k as [|k IH]; intros x s Hx.
  - assert (x = 0%N) as -> by (simpl in Hx; lia). rewrite pretty_N_go_0. lia.
  - destruct (decide (x = 0)%N) as [->|Hx0]; [rewrite pretty_N_go_0; lia|].
    rewrite pretty_N_go_step by lia.
    etrans; [apply IH|simpl; lia].
    apply N.Div0.div_lt_upper_bound.
    replace (N.of_nat (S k)) with (N.succ (N.of_nat k)) in Hx by lia.
    by rewrite N.pow_succ_r' in Hx.
Qed.

Lemma length_pretty_N_go_pos (x : N) (s : string) :
  (0 < x)%N → (String.length s < String.length (pretty_N_go x s))%nat.
Proof.
  revert s. induction (N.lt_wf_0 x) as [x _ IH]; intros s Hx.
  rewrite pretty_N_go_step by done.
  destruct (decide (x `div` 10 = 0)%N) as [->|Hd]; [rewrite pretty_N_go_0; simpl; lia|].
  assert (0 < x `div` 10)%N as Hpos by (by apply N.neq_0_lt_0).
  assert (x `div` 10 < x)%N as Hlt by (by apply N.div_lt).
  pose proof (IH _ Hlt (String (pretty_N_char (x `mod` 10)) s) Hpos) as Hlen.
  simpl in Hlen. lia.
Qed.

Lemma length_pretty (k : nat) (n : Z) :
  (0 < k)%nat → 0 ≤ n < 10 ^ Z.of_nat k →
  (1 ≤ String.length (pretty n) ≤ k)%nat.
Proof.
  intros Hk Hn. destruct n as [|p|p]; [simpl; lia| |lia].
  unfold pretty, pretty_Z, pretty, pretty_positive, pretty, pretty_N.
  case_decide; [done|]. split.
  - pose proof (length_pretty_N_go_pos (N.pos p) "" ltac:(lia)). simpl in *. lia.
  - pose proof (length_pretty_N_go k (N.pos p) "") as Hlen. simpl in Hlen.
    rewrite Nat.add_0_r in Hlen. apply Hlen.
    apply N2Z.inj_lt. rewrite N2Z.inj_pow, nat_N_Z. simpl. lia.
Qed.

Lemma length_zeros k : String.length (JSDate.zeros k) = k.
Proof. induction k as [|k IH]; simpl; [done|]. by rewrite IH. Qed.

Lemma string_length_app (s1 s2 : string) :
  String.length (s1 +:+ s2) = (String.length s1 + String.length s2)%nat.
Proof. induction s1 as [|c s1 IH]; simpl; [done|]. by rewrite IH. Qed.

Lemma length_padStart0 (k : nat) (n : Z) :
  (0 < k)%nat → 0 ≤ n < 10 ^ Z.of_nat k →
  String.length (JSDate.padStart0 k (pretty n)) = k.
Proof.
  intros Hk Hn. unfold JSDate.padStart0.
  rewrite string_length_app, length_zeros.
  pose proof (length_pretty k n Hk Hn). lia.
Qed.

(** A date text of the years 0 to 9999 reads back as the day it was written
    from. *)
Lemma dateDayNumber_parts (y m d : string) :
  String.length y = 4%nat → String.length m = 2%nat → String.length d = 2%nat →
  dateDayNumber (y +:+ "-" +:+ m +:+ "-" +:+ d)
  = match parseDigits 0 y, parseDigits 0 m, parseDigits 0 d with
    | Some y, Some m, Some d => Some (dayFromCivil y m d)
    | _, _, _ => None
    end.
Proof.
  intros Hy Hm Hd.
  destruct y as [|y1 [|y2 [|y3 [|y4 [|]]]]]; try done.
  destruct m as [|m1 [|m2 [|]]]; try done.
  destruct d as [|d1 [|d2 [|]]]; try done.
Qed.

Lemma dateDayNumber_isoDate t :
  0 ≤ JSDate.YearFromTime t ≤ 9999 →
  dateDayNumber (JSDate.isoDate t) = Some (JSDate.Day t).
Proof.
  intros Hyear. unfold JSDate.isoDate, JSDate.isoYear.
  rewrite bool_decide_eq_true_2 by done.
  destruct (civil_range (JSDate.Day t)) as [Hmonth Hdate].
  fold (JSDate.MonthFromTime t) in Hmonth. fold (JSDate.DateFromTime t) in Hdate.
  rewrite dateDayNumber_parts.
  - unfold JSDate.pad2. rewrite !parseDigits_padStart0 by lia.
    f_equal. apply dayFromCivil_civil.
  - apply length_padStart0; [lia|]. simpl. lia.
  - apply length_padStart0; [lia|]. simpl. lia.
  - apply length_padStart0; [lia|]. simpl. lia.
Qed.

(** ** The generated week, read back *)

(** The generated week lies within the years 0 to 9999, where a date text
    has four digits of year: the clock reads a day from 0000-01-07 to
    9999-12-27. *)
Definition four_digit_years (e : Env) : Prop :=
  -719522 ≤ JSDate.Day (now e) ≤ 2932892.

Lemma slotInstants_Day e offset :
  offset_steady e offset →
  JSDate.Day <$> slotInstants e
  = (λ day, JSDate.Day (getStartOfWeek e) + day) <$> [0; 1; 2; 3; 4].
Proof.
  intros Hsteady.
  rewrite (slotInstants_days e offset Hsteady), <-list_fmap_compose.
  cbn [fmap list_fmap compose]. by rewrite !Day_add_days.
Qed.

Lemma getStartOfWeek_Day e offset :
  offset_steady e offset →
  JSDate.Day (now e) - 6 ≤ JSDate.Day (getStartOfWeek e) ≤ JSDate.Day (now e).
Proof.
  intros Hsteady. rewrite (getStartOfWeek_days_back e offset Hsteady).
  pose proof (daysSinceMonday_range e) as Hk. set (k := daysSinceMonday e) in *.
  replace (now e - k * JSDate.msPerDay) with (now e + (- k) * JSDate.msPerDay) by lia.
  rewrite Day_add_days. lia.
Qed.

Lemma slotInstants_years e offset t :
  offset_steady e offset →
  four_digit_years e → t ∈ slotInstants e → 0 ≤ JSDate.YearFromTime t ≤ 9999.
Proof.
  intros Hsteady Hrange Ht. apply civil_year_range.
  apply (list_elem_of_fmap_2 JSDate.Day) in Ht.
  rewrite (slotInstants_Day e offset Hsteady) in Ht.
  pose proof (getStartOfWeek_Day e offset Hsteady). unfold four_digit_years in Hrange.
  cbn [fmap list_fmap] in Ht. rewrite !elem_of_cons in Ht.
  destruct_or!; try (by apply elem_of_nil in Ht); lia.
Qed.

Lemma generateWeeklySlots_date_instant e slot :
  slot ∈ generateWeeklySlots e →
  ∃ t, t ∈ slotInstants e ∧ TimeSlot.date slot = JSDate.isoDate t.
Proof.
  intros Hin. apply (list_elem_of_fmap_2 TimeSlot.date) in Hin.
  rewrite generateWeeklySlots_dates in Hin.
  apply list_elem_of_bind in Hin as (t & Hd & Ht).
  exists t. split; [done|]. by apply elem_of_replicate in Hd as [-> _].
Qed.

Lemma slotInstants_date_slot e t :
  t ∈ slotInstants e →
  ∃ slot, slot ∈ generateWeeklySlots e ∧ TimeSlot.date slot = JSDate.isoDate t.
Proof.
  intros Ht.
  assert (JSDate.isoDate t ∈ TimeSlot.date <$> generateWeeklySlots e) as Hin.
  { rewrite generateWeeklySlots_dates. apply list_elem_of_bind.
    exists t. split; [|done]. apply elem_of_replicate. split; [done|lia]. }
  apply list_elem_of_fmap in Hin as (slot & Hd & Hin). eauto.
Qed.

Lemma dateWeekDay_isoDate t :
  0 ≤ JSDate.YearFromTime t ≤ 9999 →
  dateWeekDay (JSDate.isoDate t) = Some (JSDate.WeekDay t).
Proof.
  intros Hyear. by rewrite dateWeekDay_dayNumber, dateDayNumber_isoDate.
Qed.

(** The local calendar is at most a day ahead of or behind UTC. *)
Lemma Day_offset t offset :
  - JSDate.msPerDay ≤ offset ≤ JSDate.msPerDay →
  -1 ≤ JSDate.Day (t + offset) - JSDate.Day t ≤ 1.
Proof.
  unfold JSDate.Day, JSDate.msPerDay. intros Hbound.
  Z.to_euclidean_division_equations; lia.
Qed.

(** X13. For a week within the years 0 to 9999 in a zone whose offset is
    steady around it, with the local calendar [shift] days ahead of UTC at
    the clock's reading, which is a day at most either way: every generated
    slot date falls on weekday [1 - shift + day] for one of the five days 0
    to 4 (so Sunday to Thursday when the local date is a day ahead of the
    UTC date, Tuesday to Saturday when it is a day behind); and every
    generated slot date is a Monday, Tuesday, Wednesday, Thursday or Friday
    exactly when the local date is the UTC date. *)
Theorem generateWeeklySlots_weekdays_iff e offset :
  four_digit_years e →
  offset_steady e offset →
  let shift := JSDate.Day (now e + offset) - JSDate.Day (now e) in
  -1 ≤ shift ≤ 1
  ∧ (∀ slot, slot ∈ generateWeeklySlots e →
       ∃ day, 0 ≤ day ≤ 4
              ∧ dateWeekDay (TimeSlot.date slot) = Some ((1 - shift + day) `mod` 7))
  ∧ (weekdays_only (generateWeeklySlots e) ↔ shift = 0).
Proof.
  intros Hrange Hsteady shift.
  assert (-1 ≤ shift ≤ 1) as Hsmall.
  { subst shift. apply Day_offset, Hsteady. }
  assert (JSDate.Day (now e + offset) = JSDate.Day (now e) + shift) as Hshift
    by (subst shift; lia).
  clearbody shift.
  pose proof (slotInstants_weekdays_shifted e offset shift Hsteady Hshift) as Hdays.
  assert (∀ t, t ∈ slotInstants e →
            ∃ day, 0 ≤ day ≤ 4 ∧ JSDate.WeekDay t = (1 - shift + day) `mod` 7) as Hsome.
  { intros t Ht. apply (list_elem_of_fmap_2 JSDate.WeekDay) in Ht.
    rewrite Hdays in Ht. cbn [fmap list_fmap] in Ht. rewrite !elem_of_cons in Ht.
    destruct_or!; try (by apply elem_of_nil in Ht); eexists; (split; [|done]); lia. }
  assert (∀ day, 0 ≤ day ≤ 4 →
            ∃ t, t ∈ slotInstants e ∧ JSDate.WeekDay t = (1 - shift + day) `mod` 7)
    as Hall.
  { intros day Hday.
    assert ((1 - shift + day) `mod` 7 ∈ JSDate.WeekDay <$> slotInstants e) as Hin.
    { rewrite Hdays. cbn [fmap list_fmap]. rewrite !elem_of_cons.
      assert (day = 0 ∨ day = 1 ∨ day = 2 ∨ day = 3 ∨ day = 4) as Hd by lia.
      destruct_or!; subst day; tauto. }
    apply list_elem_of_fmap in Hin as (t & Hw & Ht). eauto. }
  assert (∀ slot, slot ∈ generateWeeklySlots e →
            ∃ day, 0 ≤ day ≤ 4
                   ∧ dateWeekDay (TimeSlot.date slot)
                     = Some ((1 - shift + day) `mod` 7)) as Hslots.
  { intros slot Hin.
    destruct (generateWeeklySlots_date_instant e slot Hin) as (t & Ht & Hdate).
    destruct (Hsome t Ht) as (day & Hday & Hw).
    exists day. split; [done|].
    rewrite Hdate, dateWeekDay_isoDate by (by eapply slotInstants_years).
    by rewrite Hw. }
  split; [exact Hsmall|]. split; [exact Hslots|]. split.
  - intros Hweek.
    assert (∀ day, 0 ≤ day ≤ 4 → 1 ≤ (1 - shift + day) `mod` 7 ≤ 5) as Hw.
    { intros day Hday. destruct (Hall day Hday) as (t & Ht & <-).
      destruct (slotInstants_date_slot e t Ht) as (slot & Hin & Hdate).
      destruct (Hweek slot Hin) as (w & Hread & Hbound).
      rewrite Hdate, dateWeekDay_isoDate in Hread
        by (by eapply slotInstants_years).
      by injection Hread as <-. }
    pose proof (Hw 0 ltac:(lia)). pose proof (Hw 2 ltac:(lia)).
    pose proof (Hw 4 ltac:(lia)).
    Z.to_euclidean_division_equations; lia.
  - intros Hzero slot Hin.
    destruct (Hslots slot Hin) as (day & Hday & Hw).
    eexists. split; [exact Hw|].
    Z.to_euclidean_division_equations; lia.
Qed.

Lemma generateWeeklySlots_weekdays_iff_witness :
  weekdays_only (generateWeeklySlots winterNoonEnv).
Proof.
  refine (proj2 (proj2 (proj2
            (generateWeeklySlots_weekdays_iff winterNoonEnv (-18000000) _ _))) _).
  - vm_compute. split; discriminate.
  - split; [unfold JSDate.msPerDay; lia|].
    intros t isUTC Ht. unfold JSDate.msPerDay in Ht. simpl in Ht.
    unfold winterNoonEnv, newYork2024; simpl.
    destruct isUTC; repeat case_bool_decide; lia.
  - vm_compute. reflexivity.
Defined.

(** Across a change of the offset the local date can be the UTC date and
    the week still be off. On Sunday 2024-03-10 at 19:30 in New York, after
    the clocks went forward that morning, both calendars read 10 March;
    the local Monday at 19:30 lies in winter time, which is half past
    midnight on Tuesday in UTC, and the week generated is Tuesday
    2024-03-05 to Saturday 2024-03-09. *)
Lemma generateWeeklySlots_spring_forward :
  let e := springForwardEnv in
  JSDate.toISOString (now e) = "2024-03-10T23:30:00.000Z"
  ∧ JSDate.getDay (tza e) (now e) = 0
  ∧ JSDate.Day (JSDate.LocalTime (tza e) (now e)) = JSDate.Day (now e)
  ∧ getStartOfWeek e = 1709598600000
  ∧ JSDate.toISOString (getStartOfWeek e) = "2024-03-05T00:30:00.000Z"
  ∧ remove_dups (TimeSlot.date <$> generateWeeklySlots e)
    = ["2024-03-05"; "2024-03-06"; "2024-03-07"; "2024-03-08"; "2024-03-09"]
  ∧ dateWeekDay "2024-03-09" = Some 6
  ∧ ¬ weekdays_only (generateWeeklySlots e).
Proof.
  assert (generateWeeklySlots springForwardEnv !! 64%nat
          = Some (TimeSlot.mk "2024-03-09-09:00" "2024-03-09" "09:00" true)) as Hsat
    by (vm_compute; reflexivity).
  assert (dateWeekDay "2024-03-09" = Some 6) as Hsaturday by (vm_compute; reflexivity).
  cbv zeta. split_and!.
  - vm_compute; reflexivity.
  - vm_compute; reflexivity.
  - vm_compute; reflexivity.
  - vm_compute; reflexivity.
  - vm_compute; reflexivity.
  - vm_compute; reflexivity.
  - exact Hsaturday.
  - intros Hall.
    destruct (Hall (TimeSlot.mk "2024-03-09-09:00" "2024-03-09" "09:00" true))
      as (w & Hw & Hbound).
    + eapply list_elem_of_lookup_2, Hsat.
    + cbn [TimeSlot.date] in Hw. rewrite Hsaturday in Hw. injection Hw as <-. lia.
Qed.

(** ** Slot ids are distinct *)

Lemma length_isoDate t :
  0 ≤ JSDate.YearFromTime t ≤ 9999 → String.length (JSDate.isoDate t) = 10%nat.
Proof.
  intros Hyear. unfold JSDate.isoDate, JSDate.isoYear, JSDate.pad2.
  rewrite bool_decide_eq_true_2 by done.
  destruct (civil_range (JSDate.Day t)) as [Hmonth Hdate].
  fold (JSDate.MonthFromTime t) in Hmonth. fold (JSDate.DateFromTime t) in Hdate.
  rewrite !string_length_app, !length_padStart0 by (simpl; lia). done.
Qed.

Lemma NoDup_date_blocks (dates : list string) :
  NoDup dates → Forall (λ d, String.length d = 10%nat) dates →
  NoDup (d ← dates; ruleSlotId d <$> gridTimes).
Proof.
  induction 1 as [|d dates Hd Hnd IH]; intros Hlen; [constructor|].
  apply Forall_cons in Hlen as [Hlen Hlens].
  change (NoDup ((ruleSlotId d <$> gridTimes) ++ (d' ← dates; ruleSlotId d' <$> gridTimes))).
  apply NoDup_app. split_and!.
  - apply NoDup_fmap_2.
    + intros t t' Heq. by apply ruleSlotId_inj in Heq as [_ ->].
    + apply (bool_decide_unpack (NoDup gridTimes)). vm_compute. exact I.
  - intros x (t & -> & _)%list_elem_of_fmap Hin.
    apply list_elem_of_bind in Hin as (d' & Hin & Hd').
    apply list_elem_of_fmap in Hin as (t' & Heq & _).
    apply ruleSlotId_inj in Heq as [-> _]; [done|].
    rewrite Hlen. symmetry. by eapply Forall_forall in Hlens.
  - by apply IH.
Qed.

Lemma generateWeeklySlots_ids e :
  TimeSlot.id <$> generateWeeklySlots e
  = (d ← JSDate.isoDate <$> slotInstants e; ruleSlotId d <$> gridTimes).
Proof.
  unfold generateWeeklySlots, slotInstants, ruleSlotId. cbv zeta.
  generalize JSDate.isoDate. intros date.
  generalize (JSDate.setDate (tza e) (getStartOfWeek e)). intros instant.
  generalize (JSDate.getDate (tza e) (getStartOfWeek e)). intros today.
  reflexivity.
Qed.

(** X14. For a week within the years 0 to 9999 in a zone whose offset is
    steady around it the eighty slot ids are pairwise distinct: an id names
    one slot. *)
Theorem generateWeeklySlots_ids_distinct e offset :
  four_digit_years e → offset_steady e offset →
  NoDup (TimeSlot.id <$> generateWeeklySlots e).
Proof.
  intros Hrange Hsteady. rewrite generateWeeklySlots_ids. apply NoDup_date_blocks.
  - apply (NoDup_fmap_1 dateDayNumber).
    assert (dateDayNumber <$> (JSDate.isoDate <$> slotInstants e)
            = Some <$> (JSDate.Day <$> slotInstants e)) as ->.
    { rewrite <-!list_fmap_compose. apply list_fmap_ext. intros i t Hi. simpl.
      apply dateDayNumber_isoDate.
      eapply slotInstants_years; eauto using list_elem_of_lookup_2. }
    rewrite (slotInstants_Day e offset Hsteady). cbn [fmap list_fmap].
    repeat (apply NoDup_cons; split;
            [rewrite ?elem_of_cons, elem_of_nil; intros ?; destruct_or!;
             simplify_eq; lia|]).
    constructor.
  - apply Forall_forall. intros d (t & -> & Ht)%list_elem_of_fmap.
    apply length_isoDate. by eapply slotInstants_years.
Qed.

Lemma generateWeeklySlots_ids_distinct_witness :
  NoDup (TimeSlot.id <$> generateWeeklySlots earlyMondayEnv).
Proof.
  refine (generateWeeklySlots_ids_distinct earlyMondayEnv 19800000 _ _).
  - vm_compute. split; discriminate.
  - split; [unfold JSDate.msPerDay; lia|]. intros t isUTC Ht. reflexivity.
Defined.

(** Cairo in 2023: two hours east of Greenwich, and three from 27 April,
    22:00 UTC (midnight on Friday 28 April, local time), to 26 October,
    21:00 UTC. *)
Definition cairo2023 : JSDate.TimeZone :=
  JSDate.zoneOf 7200000 [(1682632800000, 10800000); (1698354000000, 7200000)].

(** Monday 2023-04-24 at 02:30 in Cairo. *)
Definition cairoEnv : Env := mkEnv 1682296200000 cairo2023 "k3x9q2m1z".

(** Across a change of the offset slot ids can repeat. In the week of
    Monday 2023-04-24, generated at 02:30 in Cairo, Thursday 02:30 is
    00:30 UTC on 27 April and Friday 02:30, in summer time, is 23:30 UTC
    on 27 April: Thursday's and Friday's slots carry the same date and the
    same sixteen ids. *)
Lemma generateWeeklySlots_offset_change_repeats_ids :
  let sl := generateWeeklySlots cairoEnv in
  JSDate.toISOString <$> slotInstants cairoEnv
  = ["2023-04-24T00:30:00.000Z"; "2023-04-25T00:30:00.000Z";
     "2023-04-26T00:30:00.000Z"; "2023-04-27T00:30:00.000Z";
     "2023-04-27T23:30:00.000Z"]
  ∧ TimeSlot.id <$> sl !! 48%nat = Some "2023-04-27-09:00"
  ∧ TimeSlot.id <$> sl !! 64%nat = Some "2023-04-27-09:00"
  ∧ ¬ NoDup (TimeSlot.id <$> sl).
Proof.
  cbv zeta. split_and!; try (vm_compute; reflexivity).
  intros Hnd.
  apply (NoDup_lookup _ 48%nat 64%nat "2023-04-27-09:00") in Hnd; [lia| |].
  - vm_compute; reflexivity.
  - vm_compute; reflexivity.
Qed.

(** ** Bookings do not look at the rules *)

(** X18. [createBooking] checks the slot list and the bookings, never the
    availability rules: no [setAvailability] call, blocking or not, makes a
    request fail that would have succeeded, or the other way round; the
    outcome is the same and so are the bookings stored. A slot that the
    query reports unavailable because of a rule can still be booked. *)
Theorem setAvailability_does_not_stop_bookings e data e' rule st :
  let st' := (setAvailability e' rule st).2 in
  (createBooking e data st').1 = (createBooking e data st).1
  ∧ bookings (createBooking e data st').2 = bookings (createBooking e data st).2
  ∧ (valid_request st data → ¬ slot_taken st (BookingData.slotId data) →
     BookingResult.success (createBooking e data st').1 = true).
Proof.
  cbv zeta.
  assert ((createBooking e data (setAvailability e' rule st).2).1
          = (createBooking e data st).1
          ∧ bookings (createBooking e data (setAvailability e' rule st).2).2
            = bookings (createBooking e data st).2) as [Hres Hbs].
  { unfold createBooking, setAvailability. cbn [snd slots bookings].
    repeat case_match; done. }
  split_and!; [done|done|].
  intros Hvalid Hfree. rewrite Hres.
  by destruct (createBooking_created e data st Hvalid Hfree) as (b & -> & _).
Qed.

Lemma setAvailability_does_not_stop_bookings_witness :
  BookingResult.success (createBooking laterEnv sampleRequest blockedStore).1 = true.
Proof.
  refine (proj2 (proj2 (setAvailability_does_not_stop_bookings laterEnv sampleRequest
            sampleEnv (RuleData.mk "2024-01-01" ["09:00"; "09:30"] true None)
            sampleStore)) _ _).
  - split_and!; [vm_compute; intuition discriminate | reflexivity |].
    eexists. split; [apply list_elem_of_here | reflexivity].
  - intros (b & Hin & _). vm_compute in Hin. by apply elem_of_nil in Hin.
Defined.

(** ** The counters of the customer page *)

(** [slots.filter(slot => slot.available).length], the Available card. *)
Definition availableCount (sl : list TimeSlot.t) : nat :=
  length (filter (λ slot, TimeSlot.available slot = true) sl).

(** [slots.length - availableSlots.length], the Booked card. *)
Definition bookedCount (sl : list TimeSlot.t) : nat :=
  (length sl - availableCount sl)%nat.

Lemma availableCount_insert sl i slot slot' :
  sl !! i = Some slot →
  availableCount (<[i := slot']> sl)
  = (availableCount sl
     + (if TimeSlot.available slot' then 1 else 0)
     - (if TimeSlot.available slot then 1 else 0))%nat.
Proof.
  unfold availableCount. revert i.
  induction sl as [|x sl IH]; intros [|i] Hi; simplify_eq/=.
  - rewrite !filter_cons.
    destruct (TimeSlot.available slot), (TimeSlot.available slot');
      repeat case_decide; try done; simpl; lia.
  - rewrite !filter_cons. specialize (IH i Hi).
    assert (TimeSlot.available slot = true →
            (1 ≤ length (filter (λ s, TimeSlot.available s = true) sl))%nat) as Hpos.
    { intros Hav.
      assert (slot ∈ filter (λ s, TimeSlot.available s = true) sl) as Hin.
      { apply list_elem_of_filter. eauto using list_elem_of_lookup_2. }
      destruct (filter _ sl); [by apply elem_of_nil in Hin|simpl; lia]. }
    case_decide; simpl; rewrite IH;
      destruct (TimeSlot.available slot), (TimeSlot.available slot');
      try specialize (Hpos eq_refl); lia.
Qed.

Lemma NoDup_fmap_lookup {A B} (f : A → B) (l : list A) i j x y :
  NoDup (f <$> l) → l !! i = Some x → l !! j = Some y → f x = f y → i = j.
Proof.
  intros Hnd Hi Hj Heq.
  eapply NoDup_lookup; [exact Hnd| |].
  - by rewrite list_lookup_fmap, Hi.
  - by rewrite list_lookup_fmap, Hj, Heq.
Qed.

(** X19. With distinct slot ids, an accepted booking turns exactly one slot of
    the query's answer unavailable: the Available counter goes down by one
    and the Booked counter up by one when the slot was reported available,
    and neither moves when a rule already made it unavailable. *)
Theorem booking_moves_the_counters e data st i slot :
  NoDup (TimeSlot.id <$> slots st) →
  BookingResult.success (createBooking e data st).1 = true →
  slots st !! i = Some slot → TimeSlot.id slot = BookingData.slotId data →
  let before := (getAvailableSlots st).1 in
  let after := (getAvailableSlots (createBooking e data st).2).1 in
  after = <[i := TimeSlot.mk (TimeSlot.id slot) (TimeSlot.date slot)
                             (TimeSlot.time slot) false]> before
  ∧ (flag_at st i = Some true →
     (availableCount after + 1)%nat = availableCount before
     ∧ bookedCount after = (bookedCount before + 1)%nat)
  ∧ (flag_at st i = Some false →
     availableCount after = availableCount before
     ∧ bookedCount after = bookedCount before).
Proof.
  intros Hnd Hok Hi Hid before after.
  pose proof (createBooking_flags e data st Hok) as Htake. cbv zeta in Htake.
  assert (slots (createBooking e data st).2 = slots st) as Hslots
    by apply (step_slots (call_createBooking e data)).
  destruct (getAvailableSlots_lookup st i slot Hi) as (flag & Hbefore & _).
  assert (after = <[i := TimeSlot.mk (TimeSlot.id slot) (TimeSlot.date slot)
                                     (TimeSlot.time slot) false]> before) as Hafter.
  { apply list_eq. intros j. subst after before.
    destruct (slots st !! j) as [slot'|] eqn:Hj.
    - destruct (getAvailableSlots_lookup st j slot' Hj) as (f & Hl & _).
      assert (slots (createBooking e data st).2 !! j = Some slot') as Hj'
        by (by rewrite Hslots).
      destruct (getAvailableSlots_lookup _ j slot' Hj') as (f' & Hl' & _).
      destruct (Htake j slot' Hj) as [Hsame Hother].
      unfold flag_at in Hsame, Hother. rewrite Hl' in Hsame, Hother.
      rewrite Hl in Hother. simpl in Hsame, Hother.
      destruct (decide (i = j)) as [->|Hne].
      + rewrite list_lookup_insert_eq by eauto using lookup_lt_Some.
        rewrite Hl'. simplify_eq. f_equal. f_equal.
        specialize (Hsame Hid). by simplify_eq.
      + rewrite list_lookup_insert_ne by done. rewrite Hl, Hl'.
        assert (TimeSlot.id slot' ≠ BookingData.slotId data) as Hdiff.
        { intros Heq. apply Hne.
          eapply (NoDup_fmap_lookup TimeSlot.id); eauto. congruence. }
        specialize (Hother Hdiff). by simplify_eq.
    - rewrite list_lookup_insert_ne.
      + unfold getAvailableSlots; simpl.
        by rewrite !list_lookup_fmap, Hslots, Hj.
      + intros ->. congruence. }
  split; [done|].
  assert (length after = length before) as Hlen
    by (rewrite Hafter; apply length_insert).
  pose proof (availableCount_insert before i _
                (TimeSlot.mk (TimeSlot.id slot) (TimeSlot.date slot)
                             (TimeSlot.time slot) false) Hbefore) as Hcount.
  rewrite <-Hafter in Hcount. simpl in Hcount.
  assert (availableCount before ≤ length before)%nat as Hle
    by apply length_filter.
  assert (availableCount after ≤ length after)%nat as Hle'
    by apply length_filter.
  unfold flag_at. rewrite Hbefore. simpl. unfold bookedCount.
  split; intros [= ->]; simpl in Hcount.
  - assert (1 ≤ availableCount before)%nat.
    { unfold availableCount.
      assert (TimeSlot.mk (TimeSlot.id slot) (TimeSlot.date slot)
                (TimeSlot.time slot) true
              ∈ filter (λ s, TimeSlot.available s = true) before) as Hin.
      { apply list_elem_of_filter. eauto using list_elem_of_lookup_2. }
      destruct (filter _ before); [by apply elem_of_nil in Hin|simpl; lia]. }
    lia.
  - lia.
Qed.

Lemma booking_moves_the_counters_witness :
  (availableCount (getAvailableSlots bookedStore).1 + 1)%nat
  = availableCount (getAvailableSlots sampleStore).1.
Proof.
  refine (proj1 (proj1 (proj2 (booking_moves_the_counters sampleEnv sampleRequest
            sampleStore 0%nat
            (TimeSlot.mk "2024-01-01-09:00" "2024-01-01" "09:00" true) _ _ _ _)) _)).
  - apply (bool_decide_unpack (NoDup (TimeSlot.id <$> slots sampleStore))).
    vm_compute. exact I.
  - reflexivity.
  - reflexivity.
  - reflexivity.
  - reflexivity.
Defined.

(** ** The counters of the admin page *)

(** [bookings.filter(booking => booking.status === status).length] *)
Definition getStatusCount (bs : list Booking.t) (status : string) : nat :=
  length (filter (λ b, statusText (Booking.status b) = status) bs).

(** The list shown under a status filter. *)
Definition filteredBookings (bs : list Booking.t) (statusFilter : string)
  : list Booking.t :=
  if bool_decide (statusFilter = "all") then bs
  else filter (λ b, statusText (Booking.status b) = statusFilter) bs.

(** X20. The Pending, Approved and Denied cards add up to the Total card; any
    other status text counts nothing; the list under a status filter has as
    many rows as the card of that status shows, and under the filter [all]
    it has every booking. *)
Theorem status_counts_add_up (bs : list Booking.t) :
  (getStatusCount bs "pending" + getStatusCount bs "approved"
   + getStatusCount bs "denied")%nat = length bs
  ∧ (∀ status, status ∉ ["pending"; "approved"; "denied"] →
       getStatusCount bs status = 0%nat)
  ∧ (∀ status, status ≠ "all" →
       length (filteredBookings bs status) = getStatusCount bs status)
  ∧ filteredBookings bs "all" = bs.
Proof.
  split_and!.
  - unfold getStatusCount. induction bs as [|b bs IH]; [done|].
    rewrite !filter_cons. destruct (Booking.status b); simpl;
      repeat case_decide; try done; simpl; lia.
  - intros status Hnot. unfold getStatusCount.
    rewrite filter_none; [done|].
    intros b _ Heq. apply Hnot. rewrite <-Heq.
    destruct (Booking.status b); simpl; set_solver.
  - intros status Hne. unfold filteredBookings.
    by rewrite bool_decide_eq_false_2.
  - done.
Qed.

(** ** Bookings are never removed *)

(** A booking with its status blanked out: what no call ever changes. *)
Definition withoutStatus (b : Booking.t) : Booking.t := Booking.set_status pending b.

Lemma fmap_insert_same {A B} (f : A → B) (l : list A) i x y :
  l !! i = Some x → f y = f x → f <$> <[i := y]> l = f <$> l.
Proof.
  revert i. induction l as [|z l IH]; intros [|i] Hi Heq; simplify_eq/=.
  - by rewrite Heq.
  - by rewrite IH.
Qed.

Lemma step_keeps_bookings c st :
  withoutStatus <$> bookings st `prefix_of` withoutStatus <$> bookings (step c st).
Proof.
  destruct c; simpl; try done.
  - createBooking_cases e data st; simpl; try done.
    rewrite fmap_app. by apply prefix_app_r.
  - unfold updateBookingStatus.
    destruct (list_find _ _) as [[i b]|] eqn:Hfind; simpl; [|done].
    apply list_find_Some in Hfind as (Hi & _ & _).
    by rewrite (fmap_insert_same withoutStatus _ _ b).
  - by rewrite deleteAvailabilityRule_bookings.
Qed.

(** X21. Whatever is called, the bookings a store holds stay where they are: a
    later store has the same bookings at the same positions, alike in
    everything but their status, followed by the bookings made since.
    Nothing deletes, reorders or edits a booking. *)
Theorem run_keeps_bookings calls st :
  withoutStatus <$> bookings st `prefix_of` withoutStatus <$> bookings (run calls st).
Proof.
  revert st. induction calls as [|c calls IH]; intros st; simpl; [done|].
  etrans; [apply step_keeps_bookings|apply IH].
Qed.

(** ** The time selection of the availability form *)

(** [handleTimeSlotToggle]: a copy of the selected set with the time taken
    out if it was in, put in if it was not. *)
Definition handleTimeSlotToggle (time : string) (selectedTimes : gset string)
  : gset string :=
  if bool_decide (time ∈ selectedTimes) then selectedTimes ∖ {[ time ]}
  else selectedTimes ∪ {[ time ]}.

(** X22. Toggling a time flips that time and no other, and toggling it again
    gives the selection back. *)
Theorem handleTimeSlotToggle_flips (time : string) (selectedTimes : gset string) :
  (time ∈ handleTimeSlotToggle time selectedTimes ↔ time ∉ selectedTimes)
  ∧ (∀ other, other ≠ time →
       (other ∈ handleTimeSlotToggle time selectedTimes ↔ other ∈ selectedTimes))
  ∧ handleTimeSlotToggle time (handleTimeSlotToggle time selectedTimes)
    = selectedTimes.
Proof.
  unfold handleTimeSlotToggle. split_and!.
  - case_bool_decide; set_solver.
  - intros other Hne. case_bool_decide; set_solver.
  - destruct (decide (time ∈ selectedTimes)) as [Hin|Hout].
    + rewrite (bool_decide_eq_true_2 (time ∈ selectedTimes)) by done.
      rewrite bool_decide_eq_false_2 by set_solver.
      apply set_eq. intros x. destruct (decide (x = time)); set_solver.
    + rewrite (bool_decide_eq_false_2 (time ∈ selectedTimes)) by done.
      rewrite bool_decide_eq_true_2 by set_solver. set_solver.
Qed.
